(** * Equipment inventory: CSV reconstruction, validation and query engine

    A shallow embedding of [src/utils/csvParser.ts] and
    [src/utils/dataAnalyzer.ts] (with the record types of [src/types]).

    Conventions of the embedding:
    - a JavaScript string is the list of its UTF-16 code units ([jsstring]);
      [trim], [includes] and the regular expressions of the source all work
      on code units, so this is the granularity the code itself has;
    - a row produced by the CSV reader is a JavaScript object used as a map
      from column name to cell text: a [gmap jsstring jsstring]; a column
      that is absent from the file is an absent key ([row.col] is
      [undefined]);
    - the loop of [processInheritance] mutates a "current device" slot and two
      counters: it is a left fold of a step function over an explicit state;
    - the frequency tables of [generateStatistics] are object literals: a
      [gmap] of their own properties, read through [Object.prototype] where
      the code reads a key that is not an own property;
    - numbers that stay integers are [nat], [N] or [Z]; the numbers produced
      by [parseFloat] and by [+] are binary64 values: NaN, the two
      infinities, or the rational a finite double is, every result rounded
      to the nearest double, ties to even ([numberValue]); the sign of zero
      is not kept, and nothing in the code modelled here can tell the two
      zeros apart;
    - [toLowerCase] is the engine's Unicode case mapping: the query functions
      take it as a parameter;
    - [orderBy] of lodash, which [sortDevices] calls, is embedded after the
      library's implementation. *)

From Stdlib Require Import QArith Qcanon DecimalN.
From stdpp Require Import gmap list strings fin_maps sorting.

Close Scope Q_scope.
Local Open Scope nat_scope.

(** ** JavaScript strings *)

Abbreviation jsstring := (list N).

(** Code units of a UTF-8 encoded literal of this file.  Only used to write
    the string constants of the source the way the source writes them. *)
Fixpoint utf16_of_utf8 (bs : list N) : jsstring :=
  match bs with
  | [] => []
  | b0 :: r0 =>
    if (b0 <? 0x80)%N then b0 :: utf16_of_utf8 r0
    else
      match r0 with
      | [] => [b0]
      | b1 :: r1 =>
        if (b0 <? 0xE0)%N then
          N.lor (N.shiftl (N.land b0 0x1F) 6) (N.land b1 0x3F) :: utf16_of_utf8 r1
        else
          match r1 with
          | [] => [b0; b1]
          | b2 :: r2 =>
            if (b0 <? 0xF0)%N then
              N.lor (N.shiftl (N.land b0 0x0F) 12)
                (N.lor (N.shiftl (N.land b1 0x3F) 6) (N.land b2 0x3F))
              :: utf16_of_utf8 r2
            else
              match r2 with
              | [] => [b0; b1; b2]
              | b3 :: r3 =>
                let cp :=
                  N.lor (N.shiftl (N.land b0 0x07) 18)
                    (N.lor (N.shiftl (N.land b1 0x3F) 12)
                       (N.lor (N.shiftl (N.land b2 0x3F) 6) (N.land b3 0x3F))) in
                let v := (cp - 0x10000)%N in
                (0xD800 + N.shiftr v 10)%N :: (0xDC00 + N.land v 0x3FF)%N
                :: utf16_of_utf8 r3
              end
          end
      end
  end.

Fixpoint bytes_of_string (s : string) : list N :=
  match s with
  | EmptyString => []
  | String a r => Ascii.N_of_ascii a :: bytes_of_string r
  end.

Definition js (s : string) : jsstring := utf16_of_utf8 (bytes_of_string s).

Definition isEmpty (s : jsstring) : bool :=
  match s with [] => true | _ :: _ => false end.

(** WhiteSpace and LineTerminator of ECMAScript: what [String.prototype.trim]
    removes. *)
Definition isWhiteSpace (c : N) : bool :=
  ((9 <=? c) && (c <=? 13) || (c =? 0x20) || (c =? 0xA0) || (c =? 0x1680)
   || (0x2000 <=? c) && (c <=? 0x200A) || (c =? 0x2028) || (c =? 0x2029)
   || (c =? 0x202F) || (c =? 0x205F) || (c =? 0x3000) || (c =? 0xFEFF))%N.

Fixpoint dropWhile {A} (p : A → bool) (l : list A) : list A :=
  match l with
  | [] => []
  | x :: r => if p x then dropWhile p r else l
  end.

Definition trimStart (s : jsstring) : jsstring := dropWhile isWhiteSpace s.
Definition trimEnd (s : jsstring) : jsstring := rev (dropWhile isWhiteSpace (rev s)).
Definition trim (s : jsstring) : jsstring := trimEnd (trimStart s).

(** [s.includes(sub)]: [sub] occurs in [s] as a contiguous run of code units. *)
Fixpoint startsWith (sub s : jsstring) : bool :=
  match sub, s with
  | [], _ => true
  | _ :: _, [] => false
  | a :: sub', b :: s' => (a =? b)%N && startsWith sub' s'
  end.

Fixpoint includes (s sub : jsstring) : bool :=
  startsWith sub s || match s with [] => false | _ :: r => includes r sub end.

(** Decimal digits of a counter, as a template literal prints it. *)
Fixpoint digitsOfUint (u : Decimal.uint) : jsstring :=
  match u with
  | Decimal.Nil => []
  | Decimal.D0 r => 48%N :: digitsOfUint r
  | Decimal.D1 r => 49%N :: digitsOfUint r
  | Decimal.D2 r => 50%N :: digitsOfUint r
  | Decimal.D3 r => 51%N :: digitsOfUint r
  | Decimal.D4 r => 52%N :: digitsOfUint r
  | Decimal.D5 r => 53%N :: digitsOfUint r
  | Decimal.D6 r => 54%N :: digitsOfUint r
  | Decimal.D7 r => 55%N :: digitsOfUint r
  | Decimal.D8 r => 56%N :: digitsOfUint r
  | Decimal.D9 r => 57%N :: digitsOfUint r
  end.

Definition numberToString (n : N) : jsstring := digitsOfUint (N.to_uint n).

(** ** The record types of [src/types] *)

(** [RawCSVRow]: one parsed line, keyed by the header names. *)
Abbreviation RawCSVRow := (gmap (list N) (list N)).

Definition col_设备编号 : jsstring := js "设备编号".
Definition col_工作部位 : jsstring := js "工作部位".
Definition col_零部件名称 : jsstring := js "零部件名称".
Definition col_型号规格 : jsstring := js "型号规格".
Definition col_数量及米数 : jsstring := js "数量及米数".
Definition col_电机功率 : jsstring := js "电机功率".
Definition col_备注 : jsstring := js "备注".

Record Component := mkComponent {
  c_id : jsstring;
  零部件名称 : jsstring;
  型号规格 : jsstring;
  数量及米数 : jsstring;
  电机功率 : jsstring;
  备注 : jsstring
}.

Record Device := mkDevice {
  id : jsstring;
  设备编号 : jsstring;
  工作部位 : jsstring;
  零部件列表 : list Component
}.

Record ValidationResult := mkValidationResult {
  isValid : bool;
  errors : list jsstring;
  warnings : list jsstring
}.

(** ** [CSVParser.processInheritance] *)

(** [cell && cell.trim() !== ''] on a possibly absent cell. *)
Definition nonBlank (cell : option jsstring) : bool :=
  match cell with
  | Some s => negb (isEmpty s) && negb (isEmpty (trim s))
  | None => false
  end.

(** [cell?.trim() || ''] *)
Definition trimOrEmpty (cell : option jsstring) : jsstring :=
  match cell with
  | Some s => if isEmpty (trim s) then [] else trim s
  | None => []
  end.

(** [Object.values(row).some(value => value && value.toString().trim() !== '')] *)
Definition hasContent (row : RawCSVRow) : bool :=
  existsb (λ kv, nonBlank (Some kv.2)) (map_to_list row).

Definition isHeaderRow (row : RawCSVRow) : bool :=
  bool_decide (row !! col_设备编号 = Some col_设备编号)
  || bool_decide (row !! col_零部件名称 = Some col_零部件名称).

Definition validRows (rows : list RawCSVRow) : list RawCSVRow :=
  List.filter (λ row, hasContent row && negb (isHeaderRow row)) rows.

(** The variables the loop of [processInheritance] updates. *)
Record ParseState := mkParseState {
  devices : list Device;
  currentDevice : option Device;
  deviceCounter : N;
  componentCounter : N
}.

Definition initialState : ParseState :=
  {| devices := []; currentDevice := None;
     deviceCounter := 1; componentCounter := 1 |}.

(** First [if] of the loop body: a row with a device code closes the current
    device and opens a new one. *)
Definition openDevice (row : RawCSVRow) (st : ParseState) : ParseState :=
  if nonBlank (row !! col_设备编号) then
    {| devices := match currentDevice st with
                  | Some d => devices st ++ [d]
                  | None => devices st
                  end;
       currentDevice :=
         Some {| id := js "device-" ++ numberToString (deviceCounter st);
                 设备编号 := trim (default [] (row !! col_设备编号));
                 工作部位 := trimOrEmpty (row !! col_工作部位);
                 零部件列表 := [] |};
       deviceCounter := (deviceCounter st + 1)%N;
       componentCounter := componentCounter st |}
  else st.

(** Second [if] of the loop body: a row with a component name appends a
    component to the current device, when there is one. *)
Definition addComponent (row : RawCSVRow) (st : ParseState) : ParseState :=
  match currentDevice st with
  | Some d =>
    if nonBlank (row !! col_零部件名称) then
      let component :=
        {| c_id := js "component-" ++ numberToString (componentCounter st);
           零部件名称 := trim (default [] (row !! col_零部件名称));
           型号规格 := trimOrEmpty (row !! col_型号规格);
           数量及米数 := trimOrEmpty (row !! col_数量及米数);
           电机功率 := trimOrEmpty (row !! col_电机功率);
           备注 := trimOrEmpty (row !! col_备注) |} in
      {| devices := devices st;
         currentDevice :=
           Some {| id := id d; 设备编号 := 设备编号 d; 工作部位 := 工作部位 d;
                   零部件列表 := 零部件列表 d ++ [component] |};
         deviceCounter := deviceCounter st;
         componentCounter := (componentCounter st + 1)%N |}
    else st
  | None => st
  end.

Definition processRow (st : ParseState) (row : RawCSVRow) : ParseState :=
  addComponent row (openDevice row st).

(** After the loop: the device still open is pushed. *)
Definition flush (st : ParseState) : list Device :=
  match currentDevice st with
  | Some d => devices st ++ [d]
  | None => devices st
  end.

Definition processInheritance (rows : list RawCSVRow) : list Device :=
  flush (fold_left processRow (validRows rows) initialState).

(** ** JavaScript numbers, as far as the analyzer needs them *)

(** A finite number is held as the rational it is (in lowest terms, so that
    equal numbers are equal terms); NaN and the infinities are values of
    their own.  The operations give binary64 values only: they round with
    [numberValue]. *)
Inductive JSNumber :=
  | NaN
  | PosInfinity
  | NegInfinity
  | Finite (q : Q).

Definition isNaN (x : JSNumber) : bool :=
  match x with NaN => true | _ => false end.

(** [n / d] rounded to the nearest integer, a tie to the even one; for
    [0 ≤ n] and [0 < d]. *)
Definition roundHalfEven (n d : Z) : Z :=
  let f := (n / d)%Z in
  let r := (n mod d)%Z in
  if (2 * r <? d)%Z then f
  else if (d <? 2 * r)%Z then (f + 1)%Z
  else if Z.even f then f else (f + 1)%Z.

(** The binary exponent of [a / d], for [0 < a] and [0 < d]: the [k] with
    [2^k ≤ a / d < 2^(k+1)].  The difference of the two logarithms is [k] or
    [k + 1]; the comparison tells which. *)
Definition binaryExponent (a d : Z) : Z :=
  let k := (Z.log2 a - Z.log2 d)%Z in
  if (0 <=? k)%Z then (if (d * 2 ^ k <=? a)%Z then k else k - 1)%Z
  else (if (d <=? a * 2 ^ (- k))%Z then k else k - 1)%Z.

(** The Number value for a real number: the binary64 value nearest to it,
    a tie going to the even significand.  The significand has 53 bits, the
    least exponent of a unit in the last place is -1074 (subnormal numbers
    below [2^-1022]), and what rounds to [2^1024] or more is an infinity. *)
Definition numberValue (x : Q) : JSNumber :=
  let a := Z.abs (Qnum x) in
  let d := Zpos (Qden x) in
  if (a =? 0)%Z then Finite 0
  else
    let e := Z.max (binaryExponent a d - 52) (-1074) in
    let m := if (0 <=? e)%Z then roundHalfEven a (d * 2 ^ e)
             else roundHalfEven (a * 2 ^ (- e)) d in
    let sm := if (Qnum x <? 0)%Z then (- m)%Z else m in
    if (0 <=? e)%Z then
      if (2 ^ 1024 <=? m * 2 ^ e)%Z then
        (if (Qnum x <? 0)%Z then NegInfinity else PosInfinity)
      else Finite (Qmake (sm * 2 ^ e) 1)
    else Finite (Qred (Qmake sm (Z.to_pos (2 ^ (- e))))).

(** [a + b] on numbers: the exact sum, rounded. *)
Definition jsAdd (a b : JSNumber) : JSNumber :=
  match a, b with
  | NaN, _ | _, NaN => NaN
  | PosInfinity, NegInfinity | NegInfinity, PosInfinity => NaN
  | PosInfinity, _ | _, PosInfinity => PosInfinity
  | NegInfinity, _ | _, NegInfinity => NegInfinity
  | Finite x, Finite y => numberValue (x + y)
  end.

Definition isDigit (c : N) : bool := ((48 <=? c) && (c <=? 57))%N.

Fixpoint takeWhile {A} (p : A → bool) (l : list A) : list A :=
  match l with
  | [] => []
  | x :: r => if p x then x :: takeWhile p r else []
  end.

(** Value of a run of decimal digits. *)
Definition digitsValue (ds : jsstring) : N :=
  fold_left (λ acc d, 10 * acc + (d - 48))%N ds 0%N.

(** [(-1)^neg * m * 10^e] *)
Definition decimalValue (neg : bool) (m : N) (e : Z) : Q :=
  let sm := (if neg then - Z.of_N m else Z.of_N m)%Z in
  if (0 <=? e)%Z then Qred (Qmake (sm * 10 ^ e) 1)
  else Qred (Qmake sm (Z.to_pos (10 ^ (- e)))).

(** An optional sign in front of a literal: [(negative, rest)]. *)
Definition readSign (s : jsstring) : bool * jsstring :=
  match s with
  | c :: r =>
    if (c =? 43)%N then (false, r)
    else if (c =? 45)%N then (true, r)
    else (false, s)
  | [] => (false, s)
  end.

(** ExponentPart of StrDecimalLiteral: [e] or [E], an optional sign and at
    least one digit; anything else is no exponent. *)
Definition parseExponent (s : jsstring) : Z :=
  match s with
  | c :: r =>
    if ((c =? 101) || (c =? 69))%N then
      let '(neg, r') := readSign r in
      let ds := takeWhile isDigit r' in
      if isEmpty ds then 0%Z
      else if neg then (- Z.of_N (digitsValue ds))%Z
      else Z.of_N (digitsValue ds)
    else 0%Z
  | [] => 0%Z
  end.

(** [parseFloat]: leading white space is skipped, then the longest prefix
    that is a StrDecimalLiteral is read; NaN when there is none.  The result
    is the Number value of the literal: the engines round the literal as it
    is written, also when it has more than twenty significant digits. *)
Definition parseFloat (s : jsstring) : JSNumber :=
  let '(neg, s1) := readSign (trimStart s) in
  if startsWith (js "Infinity") s1 then
    if neg then NegInfinity else PosInfinity
  else
    let d1 := takeWhile isDigit s1 in
    let r1 := dropWhile isDigit s1 in
    match r1 with
    | c :: r1' =>
      if (c =? 46)%N then
        let d2 := takeWhile isDigit r1' in
        let r2 := dropWhile isDigit r1' in
        if isEmpty d1 && isEmpty d2 then NaN
        else numberValue (decimalValue neg (digitsValue (d1 ++ d2))
                            (parseExponent r2 - Z.of_nat (length d2)))
      else if isEmpty d1 then NaN
      else numberValue (decimalValue neg (digitsValue d1) (parseExponent r1))
    | [] =>
      if isEmpty d1 then NaN
      else numberValue (decimalValue neg (digitsValue d1) 0)
    end.

(** ** [DataAnalyzer.extractPowerValue] *)

(** The code units the character class [[kw|KW|千瓦]] matches under the [i]
    flag: the letters k and w in both cases, the bar, and the two
    ideographs. *)
Definition isPowerUnitChar (c : N) : bool :=
  bool_decide (c ∈ js "kw|KW千瓦").

(** [powerStr.replace(/[kw|KW|千瓦]/gi, '').trim()] *)
Definition cleanPowerText (powerStr : jsstring) : jsstring :=
  trim (List.filter (λ c, negb (isPowerUnitChar c)) powerStr).

Definition extractPowerValue (powerStr : jsstring) : JSNumber :=
  if isEmpty powerStr || isEmpty (trim powerStr) then Finite 0
  else
    let value := parseFloat (cleanPowerText powerStr) in
    if isNaN value then Finite 0 else value.

(** ** [DataAnalyzer.generateStatistics] *)

(** What a property of a frequency table can hold: the tables are object
    literals, written with [tbl[key] = (tbl[key] || 0) + 1]. *)
Inductive PropValue :=
  | PNumber (n : nat)
  | PString (s : jsstring).

(** The properties an object literal inherits from [Object.prototype], each
    with the name of the function it holds.  [__proto__] is an accessor and
    is handled apart. *)
Definition objectPrototypeFunctions : list (jsstring * jsstring) :=
  [ (js "constructor", js "Object");
    (js "hasOwnProperty", js "hasOwnProperty");
    (js "isPrototypeOf", js "isPrototypeOf");
    (js "propertyIsEnumerable", js "propertyIsEnumerable");
    (js "toLocaleString", js "toLocaleString");
    (js "toString", js "toString");
    (js "valueOf", js "valueOf");
    (js "__defineGetter__", js "__defineGetter__");
    (js "__defineSetter__", js "__defineSetter__");
    (js "__lookupGetter__", js "__lookupGetter__");
    (js "__lookupSetter__", js "__lookupSetter__") ].

Definition inheritedFunction (key : jsstring) : option jsstring :=
  snd <$> List.find (λ kf, bool_decide (kf.1 = key)) objectPrototypeFunctions.

(** A built-in function converted to a string (the text is the engine's; the
    one of V8 is used, nothing below depends on it). *)
Definition nativeFunctionText (name : jsstring) : jsstring :=
  js "function " ++ name ++ js "() { [native code] }".

(** [tbl[key] = (tbl[key] || 0) + 1] on an object literal.
    - an own numeric property is incremented;
    - an own string property is truthy unless empty, and [+ 1] appends "1";
    - without an own property the read goes to [Object.prototype]: a
      function there is truthy, [+ 1] makes a string of it, and the
      assignment creates an own property holding that string;
    - for [__proto__] the read gives [Object.prototype] itself and the
      assignment goes to the setter, which ignores a value that is not an
      object: the table is unchanged. *)
Definition countUp (key : jsstring) (tbl : gmap (list N) PropValue)
  : gmap (list N) PropValue :=
  if bool_decide (key = js "__proto__") then tbl
  else
    match tbl !! key with
    | Some (PNumber n) => <[key := PNumber (n + 1)]> tbl
    | Some (PString s) =>
      if isEmpty s then <[key := PNumber 1]> tbl
      else <[key := PString (s ++ js "1")]> tbl
    | None =>
      match inheritedFunction key with
      | Some f => <[key := PString (nativeFunctionText f ++ js "1")]> tbl
      | None => <[key := PNumber 1]> tbl
      end
    end.

Record Statistics := mkStatistics {
  设备总数 : nat;
  零部件总数 : nat;
  电机功率汇总 : JSNumber;
  设备分类统计 : gmap (list N) PropValue;
  零部件分类统计 : gmap (list N) PropValue
}.

(** [text || '未分类'] *)
Definition orUncategorized (text : jsstring) : jsstring :=
  if isEmpty text then js "未分类" else text.

Definition generateStatistics (devs : list Device) : Statistics :=
  {| 设备总数 := length devs;
     零部件总数 :=
       fold_left (λ total device, total + length (零部件列表 device)) devs 0;
     电机功率汇总 :=
       fold_left
         (λ acc device,
            fold_left (λ acc' component,
                         jsAdd acc' (extractPowerValue (电机功率 component)))
              (零部件列表 device) acc)
         devs (Finite 0);
     设备分类统计 :=
       fold_left (λ tbl device, countUp (orUncategorized (工作部位 device)) tbl)
         devs ∅;
     零部件分类统计 :=
       fold_left
         (λ tbl device,
            fold_left (λ tbl' component,
                         countUp (orUncategorized (零部件名称 component)) tbl')
              (零部件列表 device) tbl)
         devs ∅ |}.

(** ** [CSVParser.validateData] *)

Definition requiredColumns : list jsstring :=
  [col_设备编号; col_工作部位; col_零部件名称; col_型号规格;
   col_数量及米数; col_电机功率; col_备注].

(** [parts.join(sep)] *)
Definition join (sep : jsstring) (parts : list jsstring) : jsstring :=
  match parts with
  | [] => []
  | p :: rest => p ++ flat_map (λ q, sep ++ q) rest
  end.

(** [col in firstRow].  None of the seven column names is a property of
    [Object.prototype], so the test is the presence of the key. *)
Definition hasColumn (row : RawCSVRow) (col : jsstring) : bool :=
  bool_decide (is_Some (row !! col)).

(** The counting loop: header rows are skipped, the others add to the
    device count and to the component count. *)
Definition countRow (counts : nat * nat) (row : RawCSVRow) : nat * nat :=
  if bool_decide (row !! col_设备编号 = Some col_设备编号) then counts
  else
    ((if nonBlank (row !! col_设备编号) then counts.1 + 1 else counts.1),
     (if nonBlank (row !! col_零部件名称) then counts.2 + 1 else counts.2)).

(** [/^\d*\.?\d*(kw|KW|千瓦)?$/i] *)
Definition powerPattern (s : jsstring) : bool :=
  let r1 := dropWhile isDigit s in
  let r2 := match r1 with
            | c :: r => if (c =? 46)%N then r else r1
            | [] => r1
            end in
  let r3 := dropWhile isDigit r2 in
  match r3 with
  | [] => true
  | [k; w] =>
    ((k =? 107) || (k =? 75))%N && ((w =? 119) || (w =? 87))%N
    || bool_decide (r3 = js "千瓦")
  | _ => false
  end.

(** The second loop: one warning per row whose power text is not blank and
    does not match; [i] is the index of the first row of [rows]. *)
Fixpoint powerWarnings (i : N) (rows : list RawCSVRow) : list jsstring :=
  match rows with
  | [] => []
  | row :: rest =>
    (if nonBlank (row !! col_电机功率) then
       let power := trim (default [] (row !! col_电机功率)) in
       if powerPattern power then []
       else [js "第" ++ numberToString (i + 1)
               ++ js "行电机功率格式可能不正确: " ++ power]
     else [])
    ++ powerWarnings (i + 1) rest
  end.

Definition validateData (rows : list RawCSVRow) : ValidationResult :=
  match rows with
  | [] =>
    {| isValid := false;
       errors := [js "CSV文件为空或无有效数据"];
       warnings := [] |}
  | firstRow :: _ =>
    let missingColumns :=
      List.filter (λ col, negb (hasColumn firstRow col)) requiredColumns in
    let errors1 :=
      if 0 <? length missingColumns
      then [js "缺少必要的列: " ++ join (js ", ") missingColumns]
      else [] in
    let '(deviceCount, componentCount) := fold_left countRow rows (0, 0) in
    let errors2 :=
      if deviceCount =? 0 then errors1 ++ [js "未找到有效的设备数据"]
      else errors1 in
    let warnings1 :=
      if componentCount =? 0 then [js "未找到零部件数据"] else [] in
    {| isValid := length errors2 =? 0;
       errors := errors2;
       warnings := warnings1 ++ powerWarnings 0 rows |}
  end.

(** ** The query engine of [DataAnalyzer] *)

Record FilterOptions := mkFilterOptions {
  filter_设备编号 : option jsstring;
  filter_工作部位 : option jsstring;
  filter_零部件名称 : option jsstring;
  filter_型号规格 : option jsstring
}.

(** An optional text is truthy when it is there and not empty. *)
Definition truthy (text : option jsstring) : bool :=
  match text with
  | Some s => negb (isEmpty s)
  | None => false
  end.

Section Query.

(** [String.prototype.toLowerCase] is the engine's Unicode case mapping;
    the query functions are stated over any such mapping. *)
Variable toLowerCase : jsstring → jsstring.

(** [hay.toLowerCase().includes(needle.toLowerCase())] *)
Definition includesIgnoreCase (hay needle : jsstring) : bool :=
  includes (toLowerCase hay) (toLowerCase needle).

(** The callback of [devices.filter] in [filterDevices]. *)
Definition passesFilters (filters : FilterOptions) (device : Device) : bool :=
  if truthy (filter_设备编号 filters)
     && negb (includesIgnoreCase (设备编号 device)
                (default [] (filter_设备编号 filters)))
  then false
  else if truthy (filter_工作部位 filters)
          && negb (includesIgnoreCase (工作部位 device)
                     (default [] (filter_工作部位 filters)))
  then false
  else if truthy (filter_零部件名称 filters)
          && negb (existsb
                     (λ component,
                        includesIgnoreCase (零部件名称 component)
                          (default [] (filter_零部件名称 filters)))
                     (零部件列表 device))
  then false
  else if truthy (filter_型号规格 filters)
          && negb (existsb
                     (λ component,
                        includesIgnoreCase (型号规格 component)
                          (default [] (filter_型号规格 filters)))
                     (零部件列表 device))
  then false
  else true.

Definition filterDevices (devs : list Device) (filters : FilterOptions)
  : list Device :=
  List.filter (passesFilters filters) devs.

(** The callback of [devices.filter] in [searchDevices]; [term] is already
    lowered and trimmed. *)
Definition matchesTerm (term : jsstring) (device : Device) : bool :=
  if includes (toLowerCase (设备编号 device)) term
     || includes (toLowerCase (工作部位 device)) term
  then true
  else
    existsb
      (λ component,
         includes (toLowerCase (零部件名称 component)) term
         || includes (toLowerCase (型号规格 component)) term
         || includes (toLowerCase (数量及米数 component)) term
         || includes (toLowerCase (电机功率 component)) term
         || includes (toLowerCase (备注 component)) term)
      (零部件列表 device).

Definition searchDevices (devs : list Device) (searchTerm : jsstring)
  : list Device :=
  if isEmpty searchTerm || isEmpty (trim searchTerm) then devs
  else List.filter (matchesTerm (trim (toLowerCase searchTerm))) devs.

End Query.

(** An instance of the case mapping for running examples: ASCII letters. *)
Definition asciiToLowerCase (s : jsstring) : jsstring :=
  map (λ c, if ((65 <=? c) && (c <=? 90))%N then (c + 32)%N else c) s.

(** *** [paginateDevices] *)

(** [arr.slice(start, stop)] on integers: a negative index counts from the
    end, and both ends are clamped to the array. *)
Definition slice {A} (l : list A) (start stop : Z) : list A :=
  let len := Z.of_nat (length l) in
  let k := if (start <? 0)%Z then Z.max (len + start) 0 else Z.min start len in
  let final := if (stop <? 0)%Z then Z.max (len + stop) 0 else Z.min stop len in
  take (Z.to_nat (final - k)) (drop (Z.to_nat k) l).

(** [Math.ceil(total / pageSize)] on integers: a division by zero gives
    Infinity, or NaN for [0 / 0]. *)
Definition ceilDiv (total pageSize : Z) : JSNumber :=
  if (pageSize =? 0)%Z then
    if (total =? 0)%Z then NaN
    else if (0 <? total)%Z then PosInfinity else NegInfinity
  else Finite (inject_Z (- ((- total) / pageSize))).

Record Page := mkPage {
  data : list Device;
  total : nat;
  totalPages : JSNumber
}.

Definition paginateDevices (devs : list Device) (page pageSize : Z) : Page :=
  let total := length devs in
  let totalPages := ceilDiv (Z.of_nat total) pageSize in
  let startIndex := ((page - 1) * pageSize)%Z in
  let endIndex := (startIndex + pageSize)%Z in
  {| data := slice devs startIndex endIndex;
     total := total;
     totalPages := totalPages |}.

(** [a > b] on numbers; every comparison with NaN is false. *)
Definition jsGt (a b : JSNumber) : bool :=
  match a, b with
  | NaN, _ | _, NaN => false
  | PosInfinity, PosInfinity => false
  | PosInfinity, _ => true
  | _, PosInfinity => false
  | NegInfinity, _ => false
  | _, NegInfinity => true
  | Finite x, Finite y => if Qlt_le_dec y x then true else false
  end.

(** *** [sortDevices]

    [sortDevices] is [orderBy(devices, [field], [direction])] of lodash, a
    dependency of the repository.  [orderBy] is embedded after lodash 4:
    [baseOrderBy] pairs every element with its criterion and its index,
    [compareMultiple] compares two such entries with [compareAscending] and
    falls back on the indices, and [baseSortBy] sorts with that comparer. *)

(** [keyof Device | keyof Component] *)
Inductive SortField :=
  | field_id
  | field_设备编号
  | field_工作部位
  | field_零部件列表
  | field_零部件名称
  | field_型号规格
  | field_数量及米数
  | field_电机功率
  | field_备注.

Inductive SortDirection := asc | desc.

Record SortOptions := mkSortOptions {
  field : SortField;
  direction : SortDirection
}.

(** What [device[field]] can be. *)
Inductive FieldValue :=
  | Undefined
  | Text (s : jsstring)
  | Parts (l : list Component).

(** [device[field]]: a device has the four properties of [Device]; the
    names that only [Component] has are not properties of a device. *)
Definition getField (f : SortField) (device : Device) : FieldValue :=
  match f with
  | field_id => Text (id device)
  | field_设备编号 => Text (设备编号 device)
  | field_工作部位 => Text (工作部位 device)
  | field_零部件列表 => Parts (零部件列表 device)
  | _ => Undefined
  end.

(** The string a relational operator sees: a string is itself, an array of
    objects is its elements' "[object Object]" joined by commas. *)
Definition primitiveText (v : FieldValue) : option jsstring :=
  match v with
  | Undefined => None
  | Text s => Some s
  | Parts l => Some (join (js ",") (map (λ _, js "[object Object]") l))
  end.

(** [a < b], [a > b] on strings: by code units, a proper prefix first. *)
Fixpoint compareText (a b : jsstring) : comparison :=
  match a, b with
  | [], [] => Eq
  | [], _ :: _ => Lt
  | _ :: _, [] => Gt
  | x :: a', y :: b' =>
    match (x ?= y)%N with
    | Eq => compareText a' b'
    | c => c
    end
  end.

(** lodash's [compareAscending] on these values: [undefined] goes last. *)
Definition compareAscending (value other : FieldValue) : Z :=
  match primitiveText value, primitiveText other with
  | Some a, Some b =>
    match compareText a b with
    | Gt => 1
    | Lt => -1
    | Eq => 0
    end
  | None, Some _ => 1
  | Some _, None => -1
  | None, None => 0
  end%Z.

(** An entry of [baseOrderBy]: criterion, index, value. *)
Record SortEntry := mkSortEntry {
  criteria : FieldValue;
  index : nat;
  value : Device
}.

(** [order == 'desc' ? -1 : 1] *)
Definition orderSign (order : SortDirection) : Z :=
  match order with desc => -1 | asc => 1 end.

(** lodash's [compareMultiple] with one criterion and one order. *)
Definition compareMultiple (order : SortDirection) (object other : SortEntry) : Z :=
  let result := compareAscending (criteria object) (criteria other) in
  if (result =? 0)%Z then (Z.of_nat (index object) - Z.of_nat (index other))%Z
  else (result * orderSign order)%Z.

(** [array.sort(comparer)].  The comparer of [baseOrderBy] never answers 0
    for two different entries, so every sorting algorithm gives the same
    array; insertion from the right is used here. *)
Fixpoint insertSorted {A} (comparer : A → A → Z) (x : A) (l : list A) : list A :=
  match l with
  | [] => [x]
  | y :: r =>
    if (0 <? comparer x y)%Z then y :: insertSorted comparer x r
    else x :: l
  end.

Definition sortWith {A} (comparer : A → A → Z) (l : list A) : list A :=
  foldr (insertSorted comparer) [] l.

(** The entries [baseOrderBy] builds, the running index starting at [i]. *)
Fixpoint entriesFrom (f : SortField) (i : nat) (devs : list Device)
  : list SortEntry :=
  match devs with
  | [] => []
  | device :: rest =>
    {| criteria := getField f device; index := i; value := device |}
    :: entriesFrom f (S i) rest
  end.

Definition sortEntries (f : SortField) (devs : list Device) : list SortEntry :=
  entriesFrom f 0 devs.

Definition sortDevices (devs : list Device) (sortOptions : SortOptions)
  : list Device :=
  map value
    (sortWith (compareMultiple (direction sortOptions))
       (sortEntries (field sortOptions) devs)).

(** ** Callers: the analysis page

    [applyFiltersAndSearch] of the analysis page: the search runs when the
    term is not empty, the filter always, and the result is what the page
    lists. *)
Definition applyFiltersAndSearch (toLowerCase : jsstring → jsstring)
    (devs : list Device) (searchTerm : jsstring) (filters : FilterOptions)
  : list Device :=
  let result :=
    if negb (isEmpty searchTerm) then searchDevices toLowerCase devs searchTerm
    else devs in
  filterDevices toLowerCase result filters.

(** The two page buttons of the analysis page: [Math.max(1, currentPage - 1)]
    and [Math.min(totalPages, currentPage + 1)]. *)
Inductive PageButton := previousPage | nextPage.

Definition clickPage (totalPages currentPage : Z) (button : PageButton) : Z :=
  match button with
  | previousPage => Z.max 1 (currentPage - 1)
  | nextPage => Z.min totalPages (currentPage + 1)
  end.

(** The range the page announces: from [(currentPage - 1) * pageSize + 1] to
    [Math.min(currentPage * pageSize, total)]. *)
Definition shownFrom (currentPage pageSize : Z) : Z :=
  ((currentPage - 1) * pageSize + 1)%Z.

Definition shownTo (currentPage pageSize : Z) (total : nat) : Z :=
  Z.min (currentPage * pageSize) (Z.of_nat total).

(** ** Callers: the device page

    [devices.find(d => d.id === deviceId)]: the device the page shows, or
    nothing when no device has the id. *)
Definition findDevice (devs : list Device) (deviceId : jsstring) : option Device :=
  List.find (λ d, bool_decide (id d = deviceId)) devs.

(** ** Callers: the upload page

    [handleFileUpload] of the upload page, from the parsed rows on: the
    rows are validated, then reconstructed, and the devices are stored
    unless the validation fails or no device comes out. *)
Inductive UploadOutcome :=
  | uploadRejected (message : jsstring)
  | uploadStored (stored : list Device).

Definition handleFileUpload (rawData : list RawCSVRow) : UploadOutcome :=
  let validation := validateData rawData in
  if negb (isValid validation) then
    uploadRejected (js "数据验证失败: " ++ join (js ", ") (errors validation))
  else
    let reconstructed := processInheritance rawData in
    if length reconstructed =? 0 then uploadRejected (js "未找到有效的设备数据")
    else uploadStored reconstructed.

(** ** [DataAnalyzer.exportToCSV] *)

(** The rows a device contributes: its code and work location stand on its
    first row only, with its first component if it has one; every other
    component has a row of its own with the two device cells empty. *)
Definition exportDeviceRows (device : Device) : list (list jsstring) :=
  match 零部件列表 device with
  | [] => [[设备编号 device; 工作部位 device; []; []; []; []; []]]
  | firstComponent :: others =>
    [设备编号 device; 工作部位 device;
     零部件名称 firstComponent; 型号规格 firstComponent;
     数量及米数 firstComponent; 电机功率 firstComponent; 备注 firstComponent]
    :: map (λ component,
              [[]; []; 零部件名称 component; 型号规格 component;
               数量及米数 component; 电机功率 component; 备注 component])
         others
  end.

(** The array [rows] of [exportToCSV]: the headers, then the rows of the
    devices. *)
Definition exportRows (devs : list Device) : list (list jsstring) :=
  [col_设备编号; col_工作部位; col_零部件名称; col_型号规格;
   col_数量及米数; col_电机功率; col_备注]
  :: flat_map exportDeviceRows devs.

(** The code unit of the double quote. *)
Definition quoteChar : N := 34.

(** The cell between double quotes, each double quote of the cell doubled
    (the global [replace] of the source). *)
Definition quoteCell (cell : jsstring) : jsstring :=
  [quoteChar]
  ++ flat_map (λ c, if (c =? quoteChar)%N then [quoteChar; quoteChar] else [c])
       cell
  ++ [quoteChar].

(** The text of a table of cells: cells joined by commas, rows by line
    feeds. *)
Definition csvText (rows : list (list jsstring)) : jsstring :=
  join [10%N] (map (λ row, join (js ",") (map quoteCell row)) rows).

Definition exportToCSV (devs : list Device) : jsstring :=
  csvText (exportRows devs).

(** ** The power of a component on the pages

    The device list and the device page read the power of a component with
    [parseFloat(component.电机功率.replace(/[^\d.]/g, '')) || 0] and add
    these values up per device. *)

(** [text.replace(/[^\d.]/g, '')]: the digits and the dots of the text. *)
Definition digitsAndDots (text : jsstring) : jsstring :=
  List.filter (λ c, isDigit c || (c =? 46)%N) text.

(** [value || 0] on numbers: NaN and zero are the falsy numbers. *)
Definition orZero (value : JSNumber) : JSNumber :=
  match value with
  | NaN => Finite 0
  | Finite q => if Qeq_bool q 0 then Finite 0 else value
  | _ => value
  end.

Definition componentPower (component : Component) : JSNumber :=
  orZero (parseFloat (digitsAndDots (电机功率 component))).

(** [device.零部件列表.reduce((sum, component) => sum + power, 0)] *)
Definition totalPower (device : Device) : JSNumber :=
  fold_left (λ sum component, jsAdd sum (componentPower component))
    (零部件列表 device) (Finite 0).

(** ** [DataAnalyzer.generatePowerChartData] *)

(** [a <= b] on numbers; every comparison with NaN is false. *)
Definition jsLe (a b : JSNumber) : bool :=
  match a, b with
  | NaN, _ | _, NaN => false
  | NegInfinity, _ => true
  | _, PosInfinity => true
  | PosInfinity, _ => false
  | _, NegInfinity => false
  | Finite x, Finite y => if Qlt_le_dec y x then false else true
  end.

(** The object [powerRanges]: five counters, in the order of the literal. *)
Record PowerRanges := {
  range_0_1KW : nat;
  range_1_5KW : nat;
  range_5_10KW : nat;
  range_10_20KW : nat;
  range_20KW以上 : nat
}.

(** The body of the inner loop, for one component. *)
Definition countPower (powerRanges : PowerRanges) (component : Component)
  : PowerRanges :=
  let power := extractPowerValue (电机功率 component) in
  if jsGt power (Finite 0) then
    if jsLe power (Finite 1) then
      {| range_0_1KW := range_0_1KW powerRanges + 1;
         range_1_5KW := range_1_5KW powerRanges;
         range_5_10KW := range_5_10KW powerRanges;
         range_10_20KW := range_10_20KW powerRanges;
         range_20KW以上 := range_20KW以上 powerRanges |}
    else if jsLe power (Finite 5) then
      {| range_0_1KW := range_0_1KW powerRanges;
         range_1_5KW := range_1_5KW powerRanges + 1;
         range_5_10KW := range_5_10KW powerRanges;
         range_10_20KW := range_10_20KW powerRanges;
         range_20KW以上 := range_20KW以上 powerRanges |}
    else if jsLe power (Finite 10) then
      {| range_0_1KW := range_0_1KW powerRanges;
         range_1_5KW := range_1_5KW powerRanges;
         range_5_10KW := range_5_10KW powerRanges + 1;
         range_10_20KW := range_10_20KW powerRanges;
         range_20KW以上 := range_20KW以上 powerRanges |}
    else if jsLe power (Finite 20) then
      {| range_0_1KW := range_0_1KW powerRanges;
         range_1_5KW := range_1_5KW powerRanges;
         range_5_10KW := range_5_10KW powerRanges;
         range_10_20KW := range_10_20KW powerRanges + 1;
         range_20KW以上 := range_20KW以上 powerRanges |}
    else
      {| range_0_1KW := range_0_1KW powerRanges;
         range_1_5KW := range_1_5KW powerRanges;
         range_5_10KW := range_5_10KW powerRanges;
         range_10_20KW := range_10_20KW powerRanges;
         range_20KW以上 := range_20KW以上 powerRanges + 1 |}
  else powerRanges.

(** [Object.entries(powerRanges)]: the keys are not array indices, so they
    come in the order of the literal. *)
Definition powerRangeEntries (powerRanges : PowerRanges)
  : list (jsstring * nat) :=
  [ (js "0-1KW", range_0_1KW powerRanges);
    (js "1-5KW", range_1_5KW powerRanges);
    (js "5-10KW", range_5_10KW powerRanges);
    (js "10-20KW", range_10_20KW powerRanges);
    (js "20KW以上", range_20KW以上 powerRanges) ].

Definition powerColors : list jsstring :=
  map js ["#ef4444"; "#f97316"; "#eab308"; "#22c55e"; "#3b82f6"]%string.

(** The body of the last loop: the entry at [index] is pushed on the three
    arrays when its count is positive.  [index] is below five, so
    [colors[index]] is a colour. *)
Definition keepRange
    (filtered : list jsstring * list nat * list jsstring)
    (indexed : nat * (jsstring * nat))
  : list jsstring * list nat * list jsstring :=
  let '(filteredLabels, filteredData, filteredColors) := filtered in
  let '(index, (label, count)) := indexed in
  if 0 <? count then
    (filteredLabels ++ [label], filteredData ++ [count],
     filteredColors ++ [default [] (powerColors !! index)])
  else filtered.

Module Chart.

Record Dataset := {
  label : jsstring;
  data : list nat;
  backgroundColor : list jsstring;
  borderColor : jsstring;
  borderWidth : nat
}.

Record ChartData := {
  labels : list jsstring;
  datasets : list Dataset
}.

End Chart.

Definition generatePowerChartData (devs : list Device) : Chart.ChartData :=
  let powerRanges :=
    fold_left
      (λ ranges device, fold_left countPower (零部件列表 device) ranges)
      devs
      {| range_0_1KW := 0; range_1_5KW := 0; range_5_10KW := 0;
         range_10_20KW := 0; range_20KW以上 := 0 |} in
  let entries := powerRangeEntries powerRanges in
  let '(filteredLabels, filteredData, filteredColors) :=
    fold_left keepRange (zip (seq 0 (length entries)) entries) ([], [], []) in
  {| Chart.labels := filteredLabels;
     Chart.datasets :=
       [ {| Chart.label := js "零部件数量";
            Chart.data := filteredData;
            Chart.backgroundColor := filteredColors;
            Chart.borderColor := js "#ffffff";
            Chart.borderWidth := 2 |} ] |}.

(** * Vocabulary of the statements

    The predicates and measures the theorems are stated with, and the
    concrete inputs they are run on. *)

(** ** Inputs *)

(** A row as the CSV reader builds it from the header line and the cells
    of one line, in the order of the seven columns. *)
Definition rowOfCells (cells : list jsstring) : RawCSVRow :=
  list_to_map (zip [col_设备编号; col_工作部位; col_零部件名称; col_型号规格;
                    col_数量及米数; col_电机功率; col_备注] cells).

(** The three rows of the scenario. *)
Definition scenarioRows : list RawCSVRow :=
  [ rowOfCells (map js ["HC-001"; "Loc-A"; "PartX"; "Spec1"; "2KW"; ""; ""]);
    rowOfCells (map js [""; ""; "PartY"; "Spec2"; ""; "0.5KW"; ""]);
    rowOfCells (map js ["HC-002"; "Loc-B"; "PartZ"; "Spec3"; "1"; ""; ""]) ]%string.

(** A file with the six other columns, one line, and no device code. *)
Definition rowsWithoutRemark : list RawCSVRow :=
  [ delete col_备注
      (rowOfCells (map js [""; "Loc-A"; "PartX"; "Spec1"; "2"; "1.5KW"; ""])) ]%string.

(** The same file with a device code on its line. *)
Definition deviceRowsWithoutRemark : list RawCSVRow :=
  [ delete col_备注
      (rowOfCells (map js ["HC-001"; "Loc-A"; "PartX"; "Spec1"; "2"; "1.5KW"; ""])) ]%string.

(** A file whose only line has the work location "constructor" and the
    component name "toString". *)
Definition rowsWithInheritedNames : list RawCSVRow :=
  [ rowOfCells (map js ["HC-001"; "constructor"; "toString"; "Spec1"; "1"; ""; ""]) ]%string.

(** Three devices A, B and C without components. *)
Definition threeDevices : list Device :=
  processInheritance
    [ rowOfCells (map js ["A"; ""; ""; ""; ""; ""; ""]);
      rowOfCells (map js ["B"; ""; ""; ""; ""; ""; ""]);
      rowOfCells (map js ["C"; ""; ""; ""; ""; ""; ""]) ]%string.

(** Two devices whose only components have the power texts 5KW and 2KW. *)
Definition powerDevices : list Device :=
  processInheritance
    [ rowOfCells (map js ["HC-001"; "Loc-A"; "Motor"; ""; "1"; "5KW"; ""]);
      rowOfCells (map js ["HC-002"; "Loc-B"; "Motor"; ""; "1"; "2KW"; ""]) ]%string.

(** Two devices with the codes a1 and Z1. *)
Definition mixedCaseDevices : list Device :=
  processInheritance
    [ rowOfCells (map js ["a1"; ""; ""; ""; ""; ""; ""]);
      rowOfCells (map js ["Z1"; ""; ""; ""; ""; ""; ""]) ]%string.

(** ** Reconstruction *)

(** A text that [trim] leaves as it is. *)
Definition trimmedText (s : jsstring) : Prop := trim s = s.

(** A component with a name, all of whose texts are trimmed. *)
Definition componentWellFormed (c : Component) : Prop :=
  零部件名称 c ≠ []
  ∧ trimmedText (c_id c) ∧ trimmedText (零部件名称 c)
  ∧ trimmedText (型号规格 c) ∧ trimmedText (数量及米数 c)
  ∧ trimmedText (电机功率 c) ∧ trimmedText (备注 c).

(** A device with a code, all of whose texts are trimmed, and whose
    components are well formed. *)
Definition deviceWellFormed (d : Device) : Prop :=
  设备编号 d ≠ []
  ∧ trimmedText (id d) ∧ trimmedText (设备编号 d) ∧ trimmedText (工作部位 d)
  ∧ Forall componentWellFormed (零部件列表 d).

(** The invariant of the loop: the closed devices and the open one. *)
Definition stateWellFormed (st : ParseState) : Prop :=
  Forall deviceWellFormed (devices st)
  ∧ ∀ d, currentDevice st = Some d → deviceWellFormed d.

(** The row has a device code that is not blank: it opens a device. *)
Definition opensDevice (row : RawCSVRow) : bool :=
  nonBlank (row !! col_设备编号).

(** The row has a component name that is not blank. *)
Definition namesComponent (row : RawCSVRow) : bool :=
  nonBlank (row !! col_零部件名称).

(** Total number of components over a device list. *)
Definition componentTotal (devs : list Device) : nat :=
  sum_list_with (λ d, length (零部件列表 d)) devs.

(** The device codes of a device list, and the names of all its components,
    in order. *)
Definition deviceCodes (devs : list Device) : list jsstring :=
  map 设备编号 devs.

Definition componentNames (devs : list Device) : list jsstring :=
  map 零部件名称 (flat_map 零部件列表 devs).

(** The trimmed device code and the trimmed component name of a row. *)
Definition rowDeviceCode (row : RawCSVRow) : jsstring :=
  trim (default [] (row !! col_设备编号)).

Definition rowComponentName (row : RawCSVRow) : jsstring :=
  trim (default [] (row !! col_零部件名称)).

(** Devices HC-001 and XY-002, and the criterion [{设备编号: "HC-0"}]. *)
Definition filterScenarioDevices : list Device :=
  processInheritance
    [ rowOfCells (map js ["HC-001"; "Loc-A"; "PartX"; ""; ""; ""; ""]);
      rowOfCells (map js ["XY-002"; "Loc-B"; "PartY"; ""; ""; ""; ""]) ]%string.

Definition filterScenarioCriteria : FilterOptions :=
  {| filter_设备编号 := Some (js "HC-0"); filter_工作部位 := None;
     filter_零部件名称 := None; filter_型号规格 := None |}.

(** ** Validation *)

(** The rows the counting loop counts as devices: not a header row, and a
    device code that is not blank. *)
Definition countsAsDevice (row : RawCSVRow) : bool :=
  negb (bool_decide (row !! col_设备编号 = Some col_设备编号))
  && nonBlank (row !! col_设备编号).

(** The rows the counting loop counts as components. *)
Definition countsAsComponent (row : RawCSVRow) : bool :=
  negb (bool_decide (row !! col_设备编号 = Some col_设备编号))
  && nonBlank (row !! col_零部件名称).

(** ** Statistics *)

(** The extraction as the specification words it, for comparison with
    [extractPowerValue]: every code unit that is neither a digit nor the
    decimal point is removed, the rest is parsed, and text that does not
    parse counts as zero. *)
Definition extractPowerValue_spec (powerStr : jsstring) : JSNumber :=
  let value :=
    parseFloat (List.filter (λ c, isDigit c || (c =? 46)%N) powerStr) in
  if isNaN value then Finite 0 else value.

(** The unit spellings the extraction is written for: kw in either case of
    each letter, and 千瓦. *)
Definition isUnitSpelling (a b : N) : bool :=
  ((a =? 107) || (a =? 75))%N && ((b =? 119) || (b =? 87))%N
  || (a =? 21315)%N && (b =? 29926)%N.

(** The text without its unit spellings, read from the left. *)
Fixpoint withoutUnits (s : jsstring) : jsstring :=
  match s with
  | [] => []
  | a :: t =>
    match t with
    | b :: r => if isUnitSpelling a b then withoutUnits r else a :: withoutUnits t
    | [] => [a]
    end
  end.

(** The letters of the units and the bar stand in unit spellings only: none
    is left when the spellings are taken out. *)
Definition unitsSpelledOut (s : jsstring) : bool :=
  forallb (λ c, negb (isPowerUnitChar c)) (withoutUnits s).

(** The count a table entry holds; an entry that is not a number holds no
    count. *)
Definition countOf (v : PropValue) : nat :=
  match v with
  | PNumber n => n
  | PString _ => 0
  end.

(** Sum of the counts of a frequency table. *)
Definition tableTotal (tbl : gmap (list N) PropValue) : nat :=
  map_fold (λ _ v acc, countOf v + acc) 0 tbl.

(** Keys for which [tbl[key]] reads an own property or nothing: the names
    that [Object.prototype] does not define. *)
Definition isPlainKey (key : jsstring) : bool :=
  negb (bool_decide (key = js "__proto__"))
  && match inheritedFunction key with Some _ => false | None => true end.

(** Every entry of the table is a number. *)
Definition allNumbers (tbl : gmap (list N) PropValue) : Prop :=
  map_Forall (λ _ v, ∃ n, v = PNumber n) tbl.

(** ** Sorting *)

(** A device comes before another one in the order of the sort. *)
Definition inOrder (f : SortField) (order : SortDirection) (d1 d2 : Device)
  : Prop :=
  (compareAscending (getField f d1) (getField f d2) * orderSign order ≤ 0)%Z.

(** The fields that only [Component] has. *)
Definition componentField (f : SortField) : bool :=
  match f with
  | field_零部件名称 | field_型号规格 | field_数量及米数
  | field_电机功率 | field_备注 => true
  | _ => false
  end.

(** The device's value of the field has the text [key] ([None]: the value
    is [undefined]). *)
Definition hasKeyText (f : SortField) (key : option jsstring) (d : Device)
  : bool :=
  bool_decide (primitiveText (getField f d) = key).

(** ** Queries *)

(** The texts of a device that [searchDevices] looks at: its code, its work
    location, and the five texts of each of its components. *)
Definition searchedTexts (d : Device) : list jsstring :=
  [设备编号 d; 工作部位 d]
  ++ flat_map (λ c, [零部件名称 c; 型号规格 c; 数量及米数 c; 电机功率 c; 备注 c])
       (零部件列表 d).

(** A filter with one criterion. *)
Definition filterByCode (text : jsstring) : FilterOptions :=
  {| filter_设备编号 := Some text; filter_工作部位 := None;
     filter_零部件名称 := None; filter_型号规格 := None |}.

Definition filterByLocation (text : jsstring) : FilterOptions :=
  {| filter_设备编号 := None; filter_工作部位 := Some text;
     filter_零部件名称 := None; filter_型号规格 := None |}.

Definition filterByComponentName (text : jsstring) : FilterOptions :=
  {| filter_设备编号 := None; filter_工作部位 := None;
     filter_零部件名称 := Some text; filter_型号规格 := None |}.

Definition filterBySpec (text : jsstring) : FilterOptions :=
  {| filter_设备编号 := None; filter_工作部位 := None;
     filter_零部件名称 := None; filter_型号规格 := Some text |}.

(** ** Identifiers *)

(** The ids the two counters of [processInheritance] give out. *)
Definition deviceIdOf (k : nat) : jsstring :=
  js "device-" ++ numberToString (N.of_nat k).

Definition componentIdOf (k : nat) : jsstring :=
  js "component-" ++ numberToString (N.of_nat k).

(** All components of a device list, in order. *)
Definition allComponents (devs : list Device) : list Component :=
  flat_map 零部件列表 devs.

(** The component and the device the loop builds from a row, with the
    counters at [k]. *)
Definition rowComponent (k : N) (row : RawCSVRow) : Component :=
  {| c_id := js "component-" ++ numberToString k;
     零部件名称 := trim (default [] (row !! col_零部件名称));
     型号规格 := trimOrEmpty (row !! col_型号规格);
     数量及米数 := trimOrEmpty (row !! col_数量及米数);
     电机功率 := trimOrEmpty (row !! col_电机功率);
     备注 := trimOrEmpty (row !! col_备注) |}.

Definition rowDevice (k : N) (row : RawCSVRow) (components : list Component)
  : Device :=
  {| id := js "device-" ++ numberToString k;
     设备编号 := trim (default [] (row !! col_设备编号));
     工作部位 := trimOrEmpty (row !! col_工作部位);
     零部件列表 := components |}.

(** The components a row adds to the open device: one when it names a
    component, none otherwise. *)
Definition rowComponents (k : N) (row : RawCSVRow) : list Component :=
  if nonBlank (row !! col_零部件名称) then [rowComponent k row] else [].

(** A device with more components at the end. *)
Definition withMoreComponents (d : Device) (more : list Component) : Device :=
  {| id := id d; 设备编号 := 设备编号 d; 工作部位 := 工作部位 d;
     零部件列表 := 零部件列表 d ++ more |}.

(** The state of the loop has numbered the devices and the components it
    holds from 1 on, and its counters are the next numbers. *)
Definition numberedState (st : ParseState) : Prop :=
  deviceCounter st = N.of_nat (S (length (flush st)))
  ∧ componentCounter st = N.of_nat (S (length (allComponents (flush st))))
  ∧ map id (flush st) = map deviceIdOf (seq 1 (length (flush st)))
  ∧ map c_id (allComponents (flush st))
    = map componentIdOf (seq 1 (length (allComponents (flush st)))).

(** ** Export *)

(** What a component and a device hold, their ids apart. *)
Definition componentContents (c : Component)
  : jsstring * jsstring * jsstring * jsstring * jsstring :=
  (零部件名称 c, 型号规格 c, 数量及米数 c, 电机功率 c, 备注 c).

Definition deviceContents (d : Device) :=
  (设备编号 d, 工作部位 d, map componentContents (零部件列表 d)).

(** No text of the device would be taken for a repeated header line: its
    code is not the header of the code column and none of its component
    names is the header of the name column. *)
Definition noHeaderText (d : Device) : Prop :=
  设备编号 d ≠ col_设备编号
  ∧ Forall (λ c, 零部件名称 c ≠ col_零部件名称) (零部件列表 d).

(** The rows the CSV reader makes of an exported table: the first line names
    the columns, every other line is a row. *)
Definition reimportedRows (devs : list Device) : list RawCSVRow :=
  map rowOfCells (tail (exportRows devs)).

(** The text of the cells of a row with a comma in front of each, and the
    text of the rows of a table with a line feed in front of each. *)
Definition cellsText (cells : list jsstring) : jsstring :=
  flat_map (λ cell, 44%N :: quoteCell cell) cells.

Definition linesText (rows : list (list jsstring)) : jsstring :=
  flat_map (λ row, 10%N :: join (js ",") (map quoteCell row)) rows.

(** The text does not go on with a double quote. *)
Definition noQuoteAhead (t : jsstring) : Prop := head t ≠ Some quoteChar.

(** The text ends here or goes on with a line feed. *)
Definition endOfRow (t : jsstring) : Prop :=
  head t = None ∨ head t = Some 10%N.

(** ** Power *)

(** The first device of the power scenario. *)
Definition firstPowerDevice : Device :=
  {| id := js "device-1"; 设备编号 := js "HC-001"; 工作部位 := js "Loc-A";
     零部件列表 :=
       [{| c_id := js "component-1"; 零部件名称 := js "Motor";
           型号规格 := []; 数量及米数 := js "1";
           电机功率 := js "5KW"; 备注 := [] |}] |}.

(** A digit or a dot: the characters the pages keep of a power text. *)
Definition isDigitOrDot (c : N) : bool := isDigit c || (c =? 46)%N.

(** The power read from a component lies above [low] and not above
    [high]. *)
Definition powerBetween (low high : JSNumber) (component : Component) : bool :=
  jsGt (extractPowerValue (电机功率 component)) low
  && jsLe (extractPowerValue (电机功率 component)) high.

(** The five ranges of the power chart, each with its label, its bounds and
    its colour. *)
Definition powerRangeBounds : list (jsstring * JSNumber * JSNumber * jsstring) :=
  [ (js "0-1KW", Finite 0, Finite 1, js "#ef4444");
    (js "1-5KW", Finite 1, Finite 5, js "#f97316");
    (js "5-10KW", Finite 5, Finite 10, js "#eab308");
    (js "10-20KW", Finite 10, Finite 20, js "#22c55e");
    (js "20KW以上", Finite 20, PosInfinity, js "#3b82f6") ].

(** The slices of the chart: the ranges some component lies in, each with
    its label, the number of its components, and its colour. *)
Definition powerSlices (devs : list Device) : list (jsstring * nat * jsstring) :=
  List.filter (λ '(_, count, _), 0 <? count)
    (map (λ '(label, low, high, color),
            (label,
             length (List.filter (powerBetween low high) (allComponents devs)),
             color))
       powerRangeBounds).

Definition hasPower (component : Component) : bool :=
  jsGt (extractPowerValue (电机功率 component)) (Finite 0).

(** Every component of every device has the property. *)
Definition allComponentsHave (P : Component → Prop) (devs : list Device) : Prop :=
  Forall (λ d, Forall P (零部件列表 d)) devs.

(** The only warning of the validator that is not about a power text. *)
Definition noComponentsWarning : jsstring := js "未找到零部件数据".

(** The rows of the power scenario. *)
Definition powerRows : list RawCSVRow :=
  [ rowOfCells (map js ["HC-001"; "Loc-A"; "Motor"; ""; "1"; "5KW"; ""]);
    rowOfCells (map js ["HC-002"; "Loc-B"; "Motor"; ""; "1"; "2KW"; ""]) ]%string.

(** * Properties *)

(** String constants stay folded in the proofs; [vm_compute] still evaluates
    them. *)
Opaque js.

(** ** Lists and strings *)

Lemma takeWhile_dropWhile {A} (p : A → bool) (l : list A) :
  takeWhile p l ++ dropWhile p l = l.
Proof.
  induction l as [|x r IH]; simpl; [done|].
  destruct (p x); simpl; [by rewrite IH | done].
Qed.

Lemma dropWhile_idem {A} (p : A → bool) (l : list A) :
  dropWhile p (dropWhile p l) = dropWhile p l.
Proof.
  induction l as [|x r IH]; simpl; [done|].
  destruct (p x) eqn:E; [done|]. simpl. by rewrite E.
Qed.

Lemma dropWhile_length {A} (p : A → bool) (l : list A) :
  length (dropWhile p l) ≤ length l.
Proof.
  induction l as [|x r IH]; simpl; [done|].
  destruct (p x); simpl; lia.
Qed.

(** A list that [dropWhile] leaves alone does not start with a [p]. *)
Lemma dropWhile_fixed_head {A} (p : A → bool) (x : A) (r : list A) :
  dropWhile p (x :: r) = x :: r → p x = false.
Proof.
  simpl. destruct (p x); [|done].
  intros E. pose proof (dropWhile_length p r) as L.
  rewrite E in L. simpl in L. lia.
Qed.

Lemma dropWhile_none {A} (p : A → bool) (l : list A) :
  Forall (λ x, p x = false) l → dropWhile p l = l.
Proof. destruct 1 as [|x r Hx _]; simpl; [done|]. by rewrite Hx. Qed.

(** [trimEnd] removes a suffix. *)
Lemma trimEnd_prefix (s : jsstring) : ∃ w, s = trimEnd s ++ w.
Proof.
  exists (rev (takeWhile isWhiteSpace (rev s))). unfold trimEnd.
  rewrite <- rev_app_distr, takeWhile_dropWhile. by rewrite rev_involutive.
Qed.

Lemma trimEnd_idem (s : jsstring) : trimEnd (trimEnd s) = trimEnd s.
Proof. unfold trimEnd. by rewrite rev_involutive, dropWhile_idem. Qed.

Lemma trimStart_trimEnd (s : jsstring) :
  trimStart s = s → trimStart (trimEnd s) = trimEnd s.
Proof.
  intros Hs. destruct (trimEnd_prefix s) as [w Hw].
  destruct (trimEnd s) as [|c u] eqn:E; [done|].
  rewrite Hw in Hs. simpl in Hs.
  apply dropWhile_fixed_head in Hs. unfold trimStart. simpl. by rewrite Hs.
Qed.

(** [trim] is idempotent: a trimmed text has nothing left to trim. *)
Lemma trim_idem (s : jsstring) : trim (trim s) = trim s.
Proof.
  unfold trim. rewrite trimStart_trimEnd.
  - apply trimEnd_idem.
  - apply dropWhile_idem.
Qed.

Lemma trim_no_space (s : jsstring) :
  Forall (λ c, isWhiteSpace c = false) s → trim s = s.
Proof.
  intros H. unfold trim, trimEnd, trimStart.
  rewrite (dropWhile_none _ s H).
  rewrite dropWhile_none; [apply rev_involutive|].
  by apply Forall_rev.
Qed.

Lemma isEmpty_true (s : jsstring) : isEmpty s = true ↔ s = [].
Proof. by destruct s. Qed.

Lemma isEmpty_false (s : jsstring) : isEmpty s = false ↔ s ≠ [].
Proof. by destruct s. Qed.

Lemma digitsOfUint_no_space (u : Decimal.uint) :
  Forall (λ c, isWhiteSpace c = false) (digitsOfUint u).
Proof. induction u; simpl; constructor; done. Qed.

(** ** Reconstruction: what every produced entity satisfies *)

Lemma trimmedText_trim (s : jsstring) : trimmedText (trim s).
Proof. apply trim_idem. Qed.

Lemma trimmedText_trimOrEmpty (cell : option jsstring) :
  trimmedText (trimOrEmpty cell).
Proof.
  destruct cell as [s|]; simpl; [|done].
  destruct (isEmpty (trim s)); [done | apply trim_idem].
Qed.

Lemma trimmedText_counter (prefix : jsstring) (n : N) :
  Forall (λ c, isWhiteSpace c = false) prefix →
  trimmedText (prefix ++ numberToString n).
Proof.
  intros H. apply trim_no_space, Forall_app. split; [done|].
  apply digitsOfUint_no_space.
Qed.

(** A cell that passed the non-blank test trims to a non-empty text. *)
Lemma nonBlank_trim (cell : option jsstring) :
  nonBlank cell = true → trim (default [] cell) ≠ [].
Proof.
  destruct cell as [s|]; simpl; [|done].
  rewrite andb_true_iff, !negb_true_iff, !isEmpty_false. tauto.
Qed.

Lemma openDevice_well_formed (row : RawCSVRow) (st : ParseState) :
  stateWellFormed st → stateWellFormed (openDevice row st).
Proof.
  intros [Hd Hc]. unfold openDevice.
  destruct (nonBlank (row !! col_设备编号)) eqn:E; [|by split].
  split; simpl.
  - destruct (currentDevice st) as [d|]; [|done].
    apply Forall_app. split; [done|]. constructor; auto.
  - intros d [= <-]. repeat split; simpl.
    + by apply nonBlank_trim.
    + apply trimmedText_counter. vm_compute. by repeat constructor.
    + apply trimmedText_trim.
    + apply trimmedText_trimOrEmpty.
    + constructor.
Qed.

Lemma addComponent_well_formed (row : RawCSVRow) (st : ParseState) :
  stateWellFormed st → stateWellFormed (addComponent row st).
Proof.
  intros H. pose proof H as [Hd Hc]. unfold addComponent.
  destruct (currentDevice st) as [d|] eqn:Ecur; [|done].
  destruct (nonBlank (row !! col_零部件名称)) eqn:E; [|done].
  destruct (Hc d eq_refl) as (H1 & H2 & H3 & H4 & H5).
  split; simpl; [done|].
  intros d' [= <-]. repeat split; simpl; try done.
  apply Forall_app. split; [done|]. constructor; [|constructor].
  repeat split; simpl.
  - by apply nonBlank_trim.
  - apply trimmedText_counter. vm_compute. by repeat constructor.
  - apply trimmedText_trim.
  - apply trimmedText_trimOrEmpty.
  - apply trimmedText_trimOrEmpty.
  - apply trimmedText_trimOrEmpty.
  - apply trimmedText_trimOrEmpty.
Qed.

Lemma processRows_well_formed (rows : list RawCSVRow) (st : ParseState) :
  stateWellFormed st → stateWellFormed (fold_left processRow rows st).
Proof.
  revert st. induction rows as [|row rest IH]; intros st H; simpl; [done|].
  apply IH. unfold processRow.
  by apply addComponent_well_formed, openDevice_well_formed.
Qed.

(** C9. Every device that [processInheritance] produces has a non-empty
    device code, every component of it has a non-empty name, and every text
    field of both (the generated ids included) is equal to its trimmed
    form. *)
Theorem processInheritance_well_formed (rows : list RawCSVRow) :
  Forall deviceWellFormed (processInheritance rows).
Proof.
  unfold processInheritance, flush.
  destruct (processRows_well_formed (validRows rows) initialState) as [Hd Hc].
  { split; [constructor | intros d [=]]. }
  destruct (currentDevice _) as [d|]; [|done].
  apply Forall_app. split; [done|]. constructor; auto.
Qed.

(** ** Reconstruction: how many devices and components come out *)

Lemma componentTotal_app (l1 l2 : list Device) :
  componentTotal (l1 ++ l2) = componentTotal l1 + componentTotal l2.
Proof. apply sum_list_with_app. Qed.

Lemma flush_openDevice (row : RawCSVRow) (st : ParseState) :
  opensDevice row = true →
  ∃ d, currentDevice (openDevice row st) = Some d
       ∧ 零部件列表 d = []
       ∧ devices (openDevice row st) = flush st.
Proof.
  unfold opensDevice, openDevice, flush. intros ->. eexists. simpl.
  split; [done|]. split; [done|]. by destruct (currentDevice st).
Qed.

Lemma openDevice_skip (row : RawCSVRow) (st : ParseState) :
  opensDevice row = false → openDevice row st = st.
Proof. unfold opensDevice, openDevice. by intros ->. Qed.

(** One component more when the row names one and a device is open. *)
Lemma flush_addComponent (row : RawCSVRow) (st : ParseState) (d : Device) :
  currentDevice st = Some d →
  ∃ d', currentDevice (addComponent row st) = Some d'
        ∧ devices (addComponent row st) = devices st
        ∧ length (零部件列表 d')
          = length (零部件列表 d) + (if namesComponent row then 1 else 0).
Proof.
  unfold namesComponent, addComponent. intros Hcur. rewrite Hcur.
  destruct (nonBlank (row !! col_零部件名称)); eexists; simpl.
  - split; [done|]. split; [done|]. simpl. rewrite length_app. simpl. lia.
  - split; [exact Hcur|]. split; [done|]. lia.
Qed.

Lemma addComponent_closed (row : RawCSVRow) (st : ParseState) :
  currentDevice st = None → addComponent row st = st.
Proof. unfold addComponent. by intros ->. Qed.

Lemma flush_length (st : ParseState) :
  length (flush st)
  = length (devices st)
    + match currentDevice st with Some _ => 1 | None => 0 end.
Proof.
  unfold flush. destruct (currentDevice st); [|lia].
  rewrite length_app. simpl. lia.
Qed.

Lemma flush_componentTotal (st : ParseState) :
  componentTotal (flush st)
  = componentTotal (devices st)
    + match currentDevice st with
      | Some d => length (零部件列表 d)
      | None => 0
      end.
Proof.
  unfold flush. destruct (currentDevice st); [|lia].
  rewrite componentTotal_app. unfold componentTotal at 2. simpl. lia.
Qed.

(** The effect of one loop iteration on the two counts. *)
Lemma processRow_counts (st : ParseState) (row : RawCSVRow) :
  length (flush (processRow st row))
  = length (flush st) + (if opensDevice row then 1 else 0)
  ∧ componentTotal (flush (processRow st row))
    = componentTotal (flush st)
      + (if (opensDevice row || bool_decide (is_Some (currentDevice st)))
            && namesComponent row
         then 1 else 0)
  ∧ (is_Some (currentDevice (processRow st row))
     ↔ opensDevice row = true ∨ is_Some (currentDevice st)).
Proof.
  unfold processRow. destruct (opensDevice row) eqn:Eo.
  - destruct (flush_openDevice row st Eo) as (d & Hd & Hnil & Hdev).
    destruct (flush_addComponent row _ d Hd) as (d' & Hd' & Hdev' & Hlen).
    rewrite !flush_length, !flush_componentTotal in *.
    rewrite Hd', Hdev', Hdev, Hlen, Hnil, flush_length, flush_componentTotal.
    simpl. split; [lia|]. split; [destruct (namesComponent row); lia|].
    split; [by left | by eexists].
  - rewrite (openDevice_skip row st Eo).
    destruct (currentDevice st) as [d|] eqn:Ecur.
    + destruct (flush_addComponent row st d Ecur) as (d' & Hd' & Hdev' & Hlen).
      rewrite !flush_length, !flush_componentTotal, Hd', Hdev', Ecur, Hlen.
      simpl. split; [lia|]. split; [destruct (namesComponent row); lia|].
      split; [right; by eexists | by eexists].
    + rewrite (addComponent_closed row st Ecur), Ecur. simpl.
      split; [lia|]. split; [lia|]. split.
      * by intros [? ?].
      * intros [?|[? ?]]; done.
Qed.

Lemma processRows_counts (rows : list RawCSVRow) (st : ParseState) :
  length (flush (fold_left processRow rows st))
  = length (flush st) + length (List.filter opensDevice rows)
  ∧ componentTotal (flush (fold_left processRow rows st))
    = componentTotal (flush st)
      + length (List.filter namesComponent
                  (match currentDevice st with
                   | Some _ => rows
                   | None => dropWhile (λ row, negb (opensDevice row)) rows
                   end)).
Proof.
  revert st. induction rows as [|row rest IH]; intros st.
  { simpl. destruct (currentDevice st); simpl; lia. }
  cbn [fold_left]. destruct (IH (processRow st row)) as [IH1 IH2].
  destruct (processRow_counts st row) as (H1 & H2 & H3).
  rewrite IH1, IH2, H1, H2. clear IH IH1 IH2 H1 H2.
  destruct (opensDevice row) eqn:Eo.
  - destruct (currentDevice (processRow st row)) eqn:E'.
    2:{ destruct H3 as [_ H3]. destruct H3 as [? H3]; [by left|done]. }
    cbn [List.filter dropWhile negb orb andb]. rewrite Eo. cbn [negb].
    split; [simpl; lia|].
    destruct (currentDevice st); cbn [List.filter];
      destruct (namesComponent row); simpl; lia.
  - destruct (currentDevice st) as [d|] eqn:Ecur.
    + destruct (currentDevice (processRow st row)) eqn:E'.
      2:{ destruct H3 as [_ H3]. destruct H3 as [? H3]; [right; by eexists|done]. }
      cbn [List.filter orb]. rewrite Eo, bool_decide_true by (by eexists).
      split; [simpl; lia|].
      destruct (namesComponent row); simpl; lia.
    + destruct (currentDevice (processRow st row)) eqn:E'.
      { destruct H3 as [H3 _]. destruct H3 as [?|[? ?]]; [by eexists|done|done]. }
      cbn [dropWhile List.filter]. rewrite Eo. cbn [negb orb].
      rewrite bool_decide_false by (by intros [? ?]). simpl. lia.
Qed.

(** C1. The number of devices produced is the number of rows, among those
    left by the header and blank filtering, whose device code is not blank;
    the number of components over all devices is the number of such rows
    with a non-blank component name from the first device row on (component
    rows in front of it are dropped). *)
Theorem processInheritance_counts (rows : list RawCSVRow) :
  length (processInheritance rows)
  = length (List.filter opensDevice (validRows rows))
  ∧ componentTotal (processInheritance rows)
    = length (List.filter namesComponent
                (dropWhile (λ row, negb (opensDevice row)) (validRows rows))).
Proof.
  unfold processInheritance.
  destruct (processRows_counts (validRows rows) initialState) as [H1 H2].
  by rewrite H1, H2.
Qed.

(** ** Reconstruction: the order of the rows is kept *)

Lemma deviceCodes_app (l1 l2 : list Device) :
  deviceCodes (l1 ++ l2) = deviceCodes l1 ++ deviceCodes l2.
Proof. apply map_app. Qed.

Lemma componentNames_app (l1 l2 : list Device) :
  componentNames (l1 ++ l2) = componentNames l1 ++ componentNames l2.
Proof. unfold componentNames. by rewrite flat_map_app, map_app. Qed.

(** The effect of one loop iteration on the two lists of texts. *)
Lemma processRow_order (st : ParseState) (row : RawCSVRow) :
  deviceCodes (flush (processRow st row))
  = deviceCodes (flush st)
    ++ (if opensDevice row then [rowDeviceCode row] else [])
  ∧ componentNames (flush (processRow st row))
    = componentNames (flush st)
      ++ (if (opensDevice row || bool_decide (is_Some (currentDevice st)))
             && namesComponent row
          then [rowComponentName row] else []).
Proof.
  unfold processRow, opensDevice, namesComponent, openDevice, addComponent, flush.
  destruct (nonBlank (row !! col_设备编号)) eqn:Eo;
    destruct (currentDevice st) as [d|] eqn:Ecur;
    cbn [currentDevice devices orb andb];
    rewrite ?Ecur;
    destruct (nonBlank (row !! col_零部件名称)) eqn:En;
    cbn [currentDevice devices id 设备编号 工作部位 零部件列表];
    rewrite ?Ecur, ?bool_decide_true by (by eexists);
    rewrite ?bool_decide_false by (by intros [? ?]);
    rewrite ?deviceCodes_app, ?componentNames_app, ?app_nil_r;
    unfold componentNames; cbn [flat_map map app 零部件列表 设备编号 零部件名称 andb];
    rewrite ?app_nil_r, ?map_app; try done.
  split; [done | by rewrite <- app_assoc].
Qed.

Lemma processRows_order (rows : list RawCSVRow) (st : ParseState) :
  deviceCodes (flush (fold_left processRow rows st))
  = deviceCodes (flush st) ++ map rowDeviceCode (List.filter opensDevice rows)
  ∧ componentNames (flush (fold_left processRow rows st))
    = componentNames (flush st)
      ++ map rowComponentName
           (List.filter namesComponent
              (match currentDevice st with
               | Some _ => rows
               | None => dropWhile (λ row, negb (opensDevice row)) rows
               end)).
Proof.
  revert st. induction rows as [|row rest IH]; intros st.
  { simpl. destruct (currentDevice st); simpl; by rewrite !app_nil_r. }
  cbn [fold_left]. destruct (IH (processRow st row)) as [IH1 IH2].
  destruct (processRow_order st row) as [H1 H2].
  destruct (processRow_counts st row) as (_ & _ & H3).
  rewrite IH1, IH2, H1, H2. clear IH IH1 IH2 H1 H2.
  destruct (opensDevice row) eqn:Eo.
  - destruct (currentDevice (processRow st row)) eqn:E'.
    2:{ destruct H3 as [_ H3]. destruct H3 as [? H3]; [by left|done]. }
    cbn [List.filter dropWhile negb orb andb]. rewrite Eo. cbn [negb].
    split; [by rewrite <- app_assoc|].
    destruct (currentDevice st); cbn [List.filter];
      destruct (namesComponent row); simpl; by rewrite <- ?app_assoc, ?app_nil_r.
  - destruct (currentDevice st) as [d|] eqn:Ecur.
    + destruct (currentDevice (processRow st row)) eqn:E'.
      2:{ destruct H3 as [_ H3]. destruct H3 as [? H3]; [right; by eexists|done]. }
      cbn [List.filter orb]. rewrite Eo, bool_decide_true by (by eexists).
      split; [by rewrite app_nil_r|].
      destruct (namesComponent row); simpl; by rewrite <- ?app_assoc, ?app_nil_r.
    + destruct (currentDevice (processRow st row)) eqn:E'.
      { destruct H3 as [H3 _]. destruct H3 as [?|[? ?]]; [by eexists|done|done]. }
      cbn [dropWhile List.filter]. rewrite Eo. cbn [negb orb].
      rewrite bool_decide_false by (by intros [? ?]). simpl.
      by rewrite !app_nil_r.
Qed.

(** The device codes of the result are the trimmed codes of the device rows
    in the order of the rows, and the component names over all devices are
    the trimmed names of the component rows from the first device row on,
    in the order of the rows. *)
Theorem processInheritance_order (rows : list RawCSVRow) :
  deviceCodes (processInheritance rows)
  = map rowDeviceCode (List.filter opensDevice (validRows rows))
  ∧ componentNames (processInheritance rows)
    = map rowComponentName
        (List.filter namesComponent
           (dropWhile (λ row, negb (opensDevice row)) (validRows rows))).
Proof.
  unfold processInheritance.
  destruct (processRows_order (validRows rows) initialState) as [H1 H2].
  by rewrite H1, H2.
Qed.

(** ** The scenario of three rows *)

(** C2. The three rows give two devices, HC-001 with the components PartX
    and PartY in that order and HC-002 with the component PartZ, and the
    statistics of the result sum the motor power to 0.5. *)
Theorem scenario_three_rows :
  map (λ d, (设备编号 d, map 零部件名称 (零部件列表 d)))
    (processInheritance scenarioRows)
  = [ (js "HC-001", [js "PartX"; js "PartY"]); (js "HC-002", [js "PartZ"]) ]
  ∧ 电机功率汇总 (generateStatistics (processInheritance scenarioRows))
    = Finite (1 # 2).
Proof. vm_compute. done. Qed.

(** ** Power extraction *)

Lemma takeWhile_all {A} (p : A → bool) (l : list A) :
  Forall (λ x, p x = true) l → takeWhile p l = l.
Proof. induction 1 as [|x r Hx _ IH]; simpl; [done|]. by rewrite Hx, IH. Qed.

Lemma dropWhile_all {A} (p : A → bool) (l : list A) :
  Forall (λ x, p x = true) l → dropWhile p l = [].
Proof. induction 1 as [|x r Hx _ IH]; simpl; [done|]. by rewrite Hx. Qed.

Lemma filter_all {A} (p : A → bool) (l : list A) :
  Forall (λ x, p x = true) l → List.filter p l = l.
Proof. induction 1 as [|x r Hx _ IH]; simpl; [done|]. by rewrite Hx, IH. Qed.

Lemma filter_none {A} (p : A → bool) (l : list A) :
  Forall (λ x, p x = false) l → List.filter p l = [].
Proof. induction 1 as [|x r Hx _ IH]; simpl; [done|]. by rewrite Hx. Qed.

Lemma filter_app_list {A} (p : A → bool) (l k : list A) :
  List.filter p (l ++ k) = List.filter p l ++ List.filter p k.
Proof.
  induction l as [|x r IH]; simpl; [done|].
  destruct (p x); simpl; by rewrite IH.
Qed.

Lemma isDigit_cases (c : N) :
  isDigit c = true → c ∈ [48; 49; 50; 51; 52; 53; 54; 55; 56; 57]%N.
Proof.
  unfold isDigit. rewrite andb_true_iff, !N.leb_le. intros [H1 H2].
  rewrite !elem_of_cons. lia.
Qed.

Lemma powerUnitChars_eq :
  js "kw|KW千瓦" = [107; 119; 124; 75; 87; 21315; 29926]%N.
Proof. by vm_compute. Qed.

Lemma isPowerUnitChar_cases (c : N) :
  isPowerUnitChar c = true → c ∈ [107; 119; 124; 75; 87; 21315; 29926]%N.
Proof.
  unfold isPowerUnitChar. rewrite bool_decide_eq_true. by rewrite powerUnitChars_eq.
Qed.

(** A fact about a code unit [c] known to be one of finitely many ([H]):
    checked on each of them. *)
Ltac check_each H :=
  repeat (apply elem_of_cons in H as [-> | H]; [by vm_compute|]);
  by apply elem_of_nil in H.

(** Facts about one digit, each checked on the ten digits. *)
Lemma digit_facts (c : N) :
  isDigit c = true →
  isWhiteSpace c = false ∧ isPowerUnitChar c = false
  ∧ (c =? 43)%N = false ∧ (c =? 45)%N = false ∧ (c =? 73)%N = false.
Proof.
  intros H. apply isDigit_cases in H. check_each H.
Qed.

Lemma unit_char_no_space (c : N) :
  isPowerUnitChar c = true → isWhiteSpace c = false.
Proof.
  intros H. apply isPowerUnitChar_cases in H. check_each H.
Qed.

Lemma Qred_integer (z : Z) : Qred (z # 1) = (z # 1)%Q.
Proof. apply Qred_identity. simpl. apply Z.gcd_1_r. Qed.

(** ** The Number value *)

Lemma numberValue_not_NaN (x : Q) : numberValue x ≠ NaN.
Proof. unfold numberValue. cbv zeta. repeat case_match; done. Qed.

(** The finite values are in lowest terms. *)
Lemma numberValue_reduced (x q : Q) : numberValue x = Finite q → Qred q = q.
Proof.
  unfold numberValue. cbv zeta.
  repeat case_match; intros [= <-];
    first [reflexivity | apply Qred_integer | apply Qred_involutive].
Qed.

Lemma roundHalfEven_one (n : Z) : roundHalfEven n 1 = n.
Proof. unfold roundHalfEven. by rewrite Z.div_1_r, Z.mod_1_r. Qed.

Lemma binaryExponent_integer (z : Z) :
  (0 < z)%Z → binaryExponent z 1 = Z.log2 z.
Proof.
  intros Hz. unfold binaryExponent. cbn [Z.log2]. rewrite Z.sub_0_r.
  pose proof (Z.log2_nonneg z) as Hk. pose proof (Z.log2_spec z Hz) as [Hlow _].
  destruct (Z.leb_spec 0%Z (Z.log2 z)) as [_ | ?]; [|lia].
  destruct (Z.leb_spec (1 * 2 ^ Z.log2 z)%Z z) as [_ | ?]; [done | lia].
Qed.

(** The integers below [2^53] are binary64 values: rounding leaves them as
    they are. *)
Lemma numberValue_integer (z : Z) :
  (0 ≤ z < 2 ^ 53)%Z → numberValue (z # 1) = Finite (z # 1).
Proof.
  intros [Hz Hmax]. destruct (Z.eq_dec z 0%Z) as [-> | Hne]; [done|].
  assert (0 < z)%Z as Hpos by lia.
  unfold numberValue. cbn [Qnum Qden]. rewrite Z.abs_eq by done.
  rewrite binaryExponent_integer by done.
  destruct (Z.eqb_spec z 0%Z) as [? | _]; [done|].
  destruct (Z.ltb_spec z 0%Z) as [? | _]; [lia|].
  pose proof (Z.log2_nonneg z) as Hk.
  assert (Z.log2 z < 53)%Z as Hlog by (by apply Z.log2_lt_pow2).
  rewrite Z.max_l by lia.
  destruct (Z.leb_spec 0%Z (Z.log2 z - 52)%Z) as [He | He].
  - replace (Z.log2 z - 52)%Z with 0%Z by lia.
    rewrite Z.pow_0_r, roundHalfEven_one, Z.mul_1_r.
    destruct (Z.leb_spec (2 ^ 1024)%Z z) as [Hbig | _]; [|done].
    assert (2 ^ 53 < 2 ^ 1024)%Z by (by vm_compute). lia.
  - rewrite roundHalfEven_one. f_equal.
    rewrite <- (Qred_integer z). apply Qred_complete.
    assert (0 < 2 ^ (- (Z.log2 z - 52)))%Z as Hpow
      by (apply Z.pow_pos_nonneg; lia).
    unfold Qeq. cbn [Qnum Qden]. rewrite Z2Pos.id by done. lia.
Qed.

(** Values of [numberValue]: a tenth and the sum [0.1 + 0.2] as the doubles
    they are, the first integer that is no double, twenty digits that round,
    the overflow to Infinity, the least subnormal number and the underflow
    to zero. *)
Lemma numberValue_examples :
  numberValue (1 # 10) = Finite (3602879701896397 # 36028797018963968)
  ∧ jsAdd (numberValue (1 # 10)) (numberValue (2 # 10))
    = Finite (1351079888211149 # 4503599627370496)
  ∧ numberValue (9007199254740993 # 1) = Finite (9007199254740992 # 1)
  ∧ numberValue (12345678901234567890 # 1) = Finite (12345678901234567168 # 1)
  ∧ numberValue (inject_Z (10 ^ 309)) = PosInfinity
  ∧ numberValue (inject_Z (2 ^ 1024 - 2 ^ 970 - 1))
    = Finite (inject_Z (2 ^ 1024 - 2 ^ 971))
  ∧ numberValue (inject_Z (2 ^ 1024 - 2 ^ 970)) = PosInfinity
  ∧ numberValue (1 # Z.to_pos (2 ^ 1074)) = Finite (1 # Z.to_pos (2 ^ 1074))
  ∧ numberValue (1 # Z.to_pos (2 ^ 1075)) = Finite 0
  ∧ numberValue (3 # Z.to_pos (2 ^ 1075)) = Finite (1 # Z.to_pos (2 ^ 1073)).
Proof. repeat split; by vm_compute. Qed.

(** ** Power extraction *)

(** [parseFloat] on a non-empty run of digits is the Number value of the
    integer they denote. *)
Lemma parseFloat_digits (ds : jsstring) :
  ds ≠ [] → Forall (λ c, isDigit c = true) ds →
  parseFloat ds = numberValue (Z.of_N (digitsValue ds) # 1).
Proof.
  intros Hne Hds. unfold parseFloat, trimStart.
  rewrite dropWhile_none
    by (eapply Forall_impl; [exact Hds | intros c Hc; by apply digit_facts]).
  destruct ds as [|c r]; [done|].
  pose proof (Forall_inv Hds) as Hc. apply digit_facts in Hc as (_ & _ & H1 & H2 & H3).
  unfold readSign. rewrite H1, H2.
  replace (startsWith (js "Infinity") (c :: r)) with false.
  2:{ replace (js "Infinity") with (73%N :: js "nfinity") by (by vm_compute).
      cbn [startsWith]. by rewrite N.eqb_sym, H3. }
  rewrite (takeWhile_all _ _ Hds), (dropWhile_all _ _ Hds).
  cbn [isEmpty]. unfold decimalValue.
  cbn [Z.leb Z.compare Z.pow Z.pow_pos Pos.iter]. cbv iota.
  by rewrite Z.mul_1_r, Qred_integer.
Qed.

Lemma extractPowerValue_not_NaN (s : jsstring) : extractPowerValue s ≠ NaN.
Proof.
  unfold extractPowerValue.
  destruct (isEmpty s || isEmpty (trim s)); [done|].
  by destruct (parseFloat (cleanPowerText s)).
Qed.

Lemma isUnitSpelling_chars (a b : N) :
  isUnitSpelling a b = true →
  isPowerUnitChar a = true ∧ isPowerUnitChar b = true.
Proof.
  unfold isUnitSpelling.
  intros [[Ha Hb]%andb_true_iff | [Ha Hb]%andb_true_iff]%orb_true_iff.
  - apply orb_true_iff in Ha as [Ha | Ha]; apply N.eqb_eq in Ha as ->;
      apply orb_true_iff in Hb as [Hb | Hb]; apply N.eqb_eq in Hb as ->;
      by vm_compute.
  - apply N.eqb_eq in Ha as ->. apply N.eqb_eq in Hb as ->. by vm_compute.
Qed.

(** Taking the unit spellings out removes characters of units only. *)
Lemma withoutUnits_filter (s : jsstring) :
  List.filter (λ c, negb (isPowerUnitChar c)) (withoutUnits s)
  = List.filter (λ c, negb (isPowerUnitChar c)) s.
Proof.
  remember (length s) as n eqn:Hn. revert s Hn.
  induction n as [n IH] using lt_wf_ind. intros s Hn.
  destruct s as [|a [|b r]]; [done | done |].
  change (withoutUnits (a :: b :: r))
    with (if isUnitSpelling a b then withoutUnits r
          else a :: withoutUnits (b :: r)).
  destruct (isUnitSpelling a b) eqn:E.
  - apply isUnitSpelling_chars in E as [Ha Hb].
    cbn [List.filter]. rewrite Ha, Hb. cbn [negb].
    apply (IH (length r)); [cbn [length] in Hn; lia | done].
  - cbn [List.filter].
    rewrite (IH (length (b :: r)) ltac:(cbn [length] in *; lia) (b :: r) eq_refl).
    done.
Qed.

(** Where the characters of units stand in unit spellings only, the code
    removes the unit spellings and nothing else. *)
Lemma cleanPowerText_units (s : jsstring) :
  unitsSpelledOut s = true → cleanPowerText s = trim (withoutUnits s).
Proof.
  unfold unitsSpelledOut, cleanPowerText. intros H.
  rewrite <- withoutUnits_filter. rewrite filter_all; [done|].
  apply Forall_forall. intros c Hc.
  rewrite forallb_forall in H. by apply H, list_elem_of_In.
Qed.

(** C3, as the code has it by design.  The result is never NaN, and blank
    text gives zero.  For a text in which the letters of the units (k, w,
    千, 瓦) and the bar stand in the unit spellings kw (either case) and 千瓦
    only, the extraction takes the unit spellings out and no other
    character, trims, and reads the leading decimal literal of what is left
    with [parseFloat]; text without such a literal gives zero.  A text
    without any of these characters is read as it is, so characters that
    are neither digits nor the point stay.  Digits followed by a unit
    spelling give the Number value of the integer they denote, which is
    this integer itself below [2^53]. *)
Theorem extractPowerValue_behaviour (s : jsstring) :
  extractPowerValue s ≠ NaN
  ∧ (trim s = [] → extractPowerValue s = Finite 0)
  ∧ (unitsSpelledOut s = true → trim s ≠ [] →
     extractPowerValue s
     = if isNaN (parseFloat (trim (withoutUnits s))) then Finite 0
       else parseFloat (trim (withoutUnits s)))
  ∧ (Forall (λ c, isPowerUnitChar c = false) s → trim s ≠ [] →
     extractPowerValue s
     = if isNaN (parseFloat (trim s)) then Finite 0 else parseFloat (trim s))
  ∧ (∀ ds unit,
       s = ds ++ unit → ds ≠ [] →
       Forall (λ c, isDigit c = true) ds →
       unit = [] ∨ (∃ a b, unit = [a; b] ∧ isUnitSpelling a b = true) →
       extractPowerValue s = numberValue (Z.of_N (digitsValue ds) # 1)
       ∧ ((Z.of_N (digitsValue ds) < 2 ^ 53)%Z →
          extractPowerValue s = Finite (Z.of_N (digitsValue ds) # 1))).
Proof.
  assert (∀ t, trim t ≠ [] →
            extractPowerValue t
            = if isNaN (parseFloat (cleanPowerText t)) then Finite 0
              else parseFloat (cleanPowerText t)) as Hread.
  { intros t Ht. unfold extractPowerValue.
    assert (t ≠ []) as H0 by (intros ->; by apply Ht).
    apply isEmpty_false in H0, Ht. by rewrite H0, Ht. }
  split; [apply extractPowerValue_not_NaN|].
  split.
  { intros H. unfold extractPowerValue. rewrite H. simpl. by rewrite orb_true_r. }
  split.
  { intros Hunits Hs. by rewrite (Hread s Hs), cleanPowerText_units. }
  split.
  { intros Hnone Hs. rewrite (Hread s Hs). unfold cleanPowerText.
    rewrite filter_all; [done|].
    eapply Forall_impl; [exact Hnone|]. intros c Hc. simpl in Hc. by rewrite Hc. }
  intros ds unit -> Hne Hds Hspelled.
  assert (Forall (λ c, isPowerUnitChar c = true) unit) as Hunit.
  { destruct Hspelled as [-> | (a & b & -> & Hab)]; [constructor|].
    apply isUnitSpelling_chars in Hab as [Ha Hb]. by repeat constructor. }
  assert (Forall (λ c, isWhiteSpace c = false) (ds ++ unit)) as Hns.
  { apply Forall_app. split.
    - eapply Forall_impl; [exact Hds|]. intros c Hc. by apply digit_facts.
    - eapply Forall_impl; [exact Hunit|]. apply unit_char_no_space. }
  assert (cleanPowerText (ds ++ unit) = ds) as Hclean.
  { unfold cleanPowerText. rewrite filter_app_list, filter_all, filter_none, app_nil_r.
    - apply trim_no_space. eapply Forall_impl; [exact Hds|].
      intros c Hc. by apply digit_facts.
    - eapply Forall_impl; [exact Hunit|]. intros c Hc. simpl in Hc. by rewrite Hc.
    - eapply Forall_impl; [exact Hds|]. intros c Hc. simpl.
      apply digit_facts in Hc as (_ & -> & _). done. }
  assert (extractPowerValue (ds ++ unit)
          = numberValue (Z.of_N (digitsValue ds) # 1)) as Hvalue.
  { rewrite Hread by (rewrite (trim_no_space _ Hns); by destruct ds).
    rewrite Hclean, parseFloat_digits by done.
    pose proof (numberValue_not_NaN (Z.of_N (digitsValue ds) # 1)) as Hnan.
    by destruct (numberValue (Z.of_N (digitsValue ds) # 1)). }
  split; [done|].
  intros Hsmall. rewrite Hvalue. apply numberValue_integer. lia.
Qed.

(** C3 as the specification states it fails: in "约5KW" the code takes out
    the unit KW only, the text left starts with 约 and does not parse, so
    the component counts for 0; removing every character that is neither a
    digit nor the point would give 5.  In "2.2KW/380V" the code reads 2.2
    and ignores the rest, while the digits and points alone read 2.238. *)
Lemma extractPowerValue_keeps_other_characters :
  unitsSpelledOut (js "约5KW") = true
  ∧ extractPowerValue (js "约5KW") = Finite 0
  ∧ extractPowerValue_spec (js "约5KW") = Finite (5 # 1)
  ∧ unitsSpelledOut (js "2.2KW/380V") = true
  ∧ extractPowerValue (js "2.2KW/380V") = numberValue (11 # 5)
  ∧ extractPowerValue_spec (js "2.2KW/380V") = numberValue (1119 # 500)
  ∧ numberValue (11 # 5) ≠ numberValue (1119 # 500).
Proof. repeat split; by vm_compute. Qed.

(** ** Validation *)

Lemma countRow_fold (rows : list RawCSVRow) (counts : nat * nat) :
  fold_left countRow rows counts
  = (counts.1 + length (List.filter countsAsDevice rows),
     counts.2 + length (List.filter countsAsComponent rows)).
Proof.
  revert counts. induction rows as [|row rest IH]; intros [a b].
  { simpl. f_equal; lia. }
  cbn [fold_left List.filter]. rewrite IH.
  unfold countRow, countsAsDevice, countsAsComponent.
  destruct (bool_decide (row !! col_设备编号 = Some col_设备编号)); simpl.
  { done. }
  destruct (nonBlank (row !! col_设备编号)),
           (nonBlank (row !! col_零部件名称)); simpl; f_equal; lia.
Qed.

Lemma filter_nil_existsb {A} (p : A → bool) (l : list A) :
  (length (List.filter p l) =? 0) = negb (existsb p l).
Proof.
  induction l as [|x r IH]; simpl; [done|]. by destruct (p x).
Qed.

(** The error list of a non-empty input: the missing-column error when a
    column is missing, then the no-device error when no row counts as a
    device. *)
Lemma validateData_errors (firstRow : RawCSVRow) (rest : list RawCSVRow) :
  errors (validateData (firstRow :: rest))
  = (if 0 <? length (List.filter (λ col, negb (hasColumn firstRow col))
                       requiredColumns)
     then [js "缺少必要的列: "
             ++ join (js ", ")
                  (List.filter (λ col, negb (hasColumn firstRow col))
                     requiredColumns)]
     else [])
    ++ (if existsb countsAsDevice (firstRow :: rest) then []
        else [js "未找到有效的设备数据"])
  ∧ isValid (validateData (firstRow :: rest))
    = (length (errors (validateData (firstRow :: rest))) =? 0).
Proof.
  unfold validateData. rewrite countRow_fold. cbn [fst snd Nat.add].
  rewrite filter_nil_existsb.
  destruct (existsb countsAsDevice (firstRow :: rest)); cbn [negb errors isValid].
  - rewrite app_nil_r. split; [done|].
    by destruct (0 <? length _).
  - split; [done|]. by destruct (0 <? length _).
Qed.

(** C6. The result is valid exactly when its error list is empty, so two
    results with the same errors are equally valid whatever their warnings;
    on an empty input the result is the single error "CSV文件为空或无有效数据"
    with no warning: none of the later checks has run. *)
Theorem validateData_isValid (rows : list RawCSVRow) :
  (isValid (validateData rows) = true ↔ errors (validateData rows) = [])
  ∧ (∀ rows',
       errors (validateData rows') = errors (validateData rows) →
       isValid (validateData rows') = isValid (validateData rows))
  ∧ validateData []
    = {| isValid := false;
         errors := [js "CSV文件为空或无有效数据"];
         warnings := [] |}.
Proof.
  assert (∀ l, isValid (validateData l)
               = (length (errors (validateData l)) =? 0)) as H.
  { intros [|firstRow rest]; [done|]. apply validateData_errors. }
  split; [|split].
  - rewrite H, Nat.eqb_eq. apply length_zero_iff_nil.
  - intros rows' E. by rewrite !H, E.
  - done.
Qed.

(** C7, as the code has it.  When the first row lacks 备注 and has the other
    six columns, the result is invalid and its first error is the
    missing-column message naming 备注 alone; it is the only error exactly
    when some row that is not a header row has a non-blank device code, and
    it is followed by the no-device error otherwise. *)
Theorem validateData_missing_remark
    (firstRow : RawCSVRow) (rest : list RawCSVRow)
    (Hremark : hasColumn firstRow col_备注 = false)
    (Hothers : forallb (hasColumn firstRow)
                 [col_设备编号; col_工作部位; col_零部件名称; col_型号规格;
                  col_数量及米数; col_电机功率] = true) :
  isValid (validateData (firstRow :: rest)) = false
  ∧ errors (validateData (firstRow :: rest))
    = (js "缺少必要的列: " ++ col_备注)
      :: (if existsb countsAsDevice (firstRow :: rest) then []
          else [js "未找到有效的设备数据"]).
Proof.
  destruct (validateData_errors firstRow rest) as [He Hv].
  assert (List.filter (λ col, negb (hasColumn firstRow col)) requiredColumns
          = [col_备注]) as Hmissing.
  { cbn [forallb] in Hothers. rewrite !andb_true_iff in Hothers.
    destruct Hothers as (H1 & H2 & H3 & H4 & H5 & H6 & _).
    unfold requiredColumns. cbn [List.filter].
    by rewrite H1, H2, H3, H4, H5, H6, Hremark. }
  rewrite Hmissing in He. cbn [length Nat.ltb Nat.leb join flat_map] in He.
  rewrite app_nil_r in He. cbn [app] in He.
  split; [by rewrite Hv, He | exact He].
Qed.

(** C7 as stated fails: the first row lacks 备注 and has the other six
    columns, and the error list has two entries, the missing column and the
    missing device data. *)
Lemma validateData_missing_remark_two_errors :
  List.filter (λ col, negb (bool_decide (col ∈ dom (hd ∅ rowsWithoutRemark))))
    requiredColumns = [col_备注]
  ∧ errors (validateData rowsWithoutRemark)
    = [js "缺少必要的列: 备注"; js "未找到有效的设备数据"].
Proof. by vm_compute. Qed.

(** The file with a device code on its line: the first row lacks 备注, has
    the other six columns, and the missing column is the only error. *)
Lemma validateData_missing_remark_example :
  hasColumn (hd ∅ deviceRowsWithoutRemark) col_备注 = false
  ∧ forallb (hasColumn (hd ∅ deviceRowsWithoutRemark))
      [col_设备编号; col_工作部位; col_零部件名称; col_型号规格;
       col_数量及米数; col_电机功率] = true
  ∧ isValid (validateData deviceRowsWithoutRemark) = false
  ∧ errors (validateData deviceRowsWithoutRemark) = [js "缺少必要的列: 备注"].
Proof.
  pose proof (validateData_missing_remark (hd ∅ deviceRowsWithoutRemark) []
                ltac:(by vm_compute) ltac:(by vm_compute)) as H.
  split; [by vm_compute|]. split; [by vm_compute|].
  vm_compute in H. vm_compute. exact H.
Defined.

(** ** Queries that change nothing *)

Lemma passesFilters_no_criteria (toLowerCase : jsstring → jsstring)
    (filters : FilterOptions) (device : Device) :
  truthy (filter_设备编号 filters) = false →
  truthy (filter_工作部位 filters) = false →
  truthy (filter_零部件名称 filters) = false →
  truthy (filter_型号规格 filters) = false →
  passesFilters toLowerCase filters device = true.
Proof. unfold passesFilters. by intros -> -> -> ->. Qed.

(** C8. Two runs of [generateStatistics] on one device list give the same
    statistics; a search for an empty or blank term returns the list as it
    is, and so does a filter none of whose criteria is provided (absent or
    empty). *)
Theorem statistics_and_queries_idempotent
    (toLowerCase : jsstring → jsstring) (devs : list Device) :
  (∀ first second,
     first = generateStatistics devs → second = generateStatistics devs →
     first = second)
  ∧ (∀ term, trim term = [] → searchDevices toLowerCase devs term = devs)
  ∧ (∀ filters,
       truthy (filter_设备编号 filters) = false →
       truthy (filter_工作部位 filters) = false →
       truthy (filter_零部件名称 filters) = false →
       truthy (filter_型号规格 filters) = false →
       filterDevices toLowerCase devs filters = devs)
  ∧ filterDevices toLowerCase devs
      {| filter_设备编号 := None; filter_工作部位 := None;
         filter_零部件名称 := None; filter_型号规格 := None |} = devs.
Proof.
  assert (∀ filters,
            truthy (filter_设备编号 filters) = false →
            truthy (filter_工作部位 filters) = false →
            truthy (filter_零部件名称 filters) = false →
            truthy (filter_型号规格 filters) = false →
            filterDevices toLowerCase devs filters = devs) as Hfilter.
  { intros filters H1 H2 H3 H4. unfold filterDevices. apply filter_all.
    apply List.Forall_forall. intros d _.
    by apply passesFilters_no_criteria. }
  split; [|split; [|split]].
  - by intros first second -> ->.
  - intros term H. unfold searchDevices. rewrite H. simpl.
    by rewrite orb_true_r.
  - exact Hfilter.
  - by apply Hfilter.
Qed.

(** Filtering the devices HC-001 and XY-002 by the device code "HC-0" keeps
    HC-001 alone; the match ignores the case of ASCII letters. *)
Lemma filterDevices_scenario :
  deviceCodes (filterDevices asciiToLowerCase filterScenarioDevices
                 filterScenarioCriteria) = [js "HC-001"]
  ∧ deviceCodes (filterDevices asciiToLowerCase filterScenarioDevices
                   {| filter_设备编号 := Some (js "hc-0"); filter_工作部位 := None;
                      filter_零部件名称 := None; filter_型号规格 := None |})
    = [js "HC-001"].
Proof. by vm_compute. Qed.

(** ** Consistency of the statistics *)

Lemma tableTotal_insert_fresh (tbl : gmap (list N) PropValue) key v :
  tbl !! key = None →
  tableTotal (<[key := v]> tbl) = countOf v + tableTotal tbl.
Proof.
  intros H. unfold tableTotal.
  rewrite map_fold_insert_L; [done| |done].
  intros _ _ z1 z2 y _ _ _. generalize (countOf z1) (countOf z2). lia.
Qed.

Lemma tableTotal_insert_own (tbl : gmap (list N) PropValue) key v old :
  tbl !! key = Some old →
  tableTotal (<[key := v]> tbl) + countOf old = countOf v + tableTotal tbl.
Proof.
  intros H. rewrite <- (insert_delete_eq tbl).
  rewrite tableTotal_insert_fresh by apply lookup_delete_eq.
  unfold tableTotal.
  rewrite (map_fold_delete_L _ _ key old tbl); [lia| |done].
  intros _ _ z1 z2 y _ _ _. generalize (countOf z1) (countOf z2). lia.
Qed.

(** Counting under a plain key adds one to the sum and keeps a table of
    numbers a table of numbers. *)
Lemma countUp_plain (key : jsstring) (tbl : gmap (list N) PropValue) :
  isPlainKey key = true → allNumbers tbl →
  allNumbers (countUp key tbl)
  ∧ tableTotal (countUp key tbl) = tableTotal tbl + 1.
Proof.
  unfold isPlainKey. rewrite andb_true_iff, negb_true_iff, bool_decide_eq_false.
  intros [Hproto Hinh] Hnum. unfold countUp.
  rewrite bool_decide_false by done.
  destruct (tbl !! key) as [v|] eqn:E.
  - destruct (Hnum key v E) as [n ->]. split.
    + apply map_Forall_insert_2; [by eexists | done].
    + pose proof (tableTotal_insert_own tbl key (PNumber (n + 1)) _ E) as H.
      simpl in H. lia.
  - destruct (inheritedFunction key); [done|]. split.
    + apply map_Forall_insert_2; [by eexists | done].
    + rewrite tableTotal_insert_fresh by done. simpl. lia.
Qed.

Lemma countUp_fold {A} (key : A → jsstring) (l : list A)
    (tbl : gmap (list N) PropValue) :
  forallb (λ x, isPlainKey (key x)) l = true → allNumbers tbl →
  allNumbers (fold_left (λ t x, countUp (key x) t) l tbl)
  ∧ tableTotal (fold_left (λ t x, countUp (key x) t) l tbl)
    = tableTotal tbl + length l.
Proof.
  revert tbl. induction l as [|x r IH]; intros tbl Hl Hnum.
  { simpl. split; [done | lia]. }
  cbn [forallb] in Hl. apply andb_true_iff in Hl as [Hx Hr].
  destruct (countUp_plain (key x) tbl Hx Hnum) as [Hnum' Htot].
  destruct (IH _ Hr Hnum') as [H1 H2]. simpl. split; [done|].
  rewrite H2, Htot. lia.
Qed.

Lemma fold_left_nested {A B C} (g : C → B → C) (f : A → list B)
    (l : list A) (c : C) :
  fold_left (λ acc a, fold_left g (f a) acc) l c
  = fold_left g (flat_map f l) c.
Proof.
  revert c. induction l as [|a r IH]; intros c; simpl; [done|].
  by rewrite fold_left_app, IH.
Qed.

Lemma component_count_fold (devs : list Device) (n : nat) :
  fold_left (λ total device, total + length (零部件列表 device)) devs n
  = n + length (flat_map 零部件列表 devs).
Proof.
  revert n. induction devs as [|d r IH]; intros n; simpl; [lia|].
  rewrite IH, length_app. lia.
Qed.

(** The two frequency tables add up to the two totals when no work location
    and no component name is the name of a property of [Object.prototype]. *)
Theorem generateStatistics_consistent (devs : list Device) :
  forallb (λ d, isPlainKey (orUncategorized (工作部位 d))) devs = true →
  forallb (λ c, isPlainKey (orUncategorized (零部件名称 c)))
    (flat_map 零部件列表 devs) = true →
  tableTotal (设备分类统计 (generateStatistics devs))
  = 设备总数 (generateStatistics devs)
  ∧ tableTotal (零部件分类统计 (generateStatistics devs))
    = 零部件总数 (generateStatistics devs).
Proof.
  intros Hd Hc. unfold generateStatistics.
  cbn [设备分类统计 设备总数 零部件分类统计 零部件总数].
  assert (allNumbers ∅) as H0 by apply map_Forall_empty.
  assert (tableTotal ∅ = 0) as Hz by apply map_fold_empty.
  split.
  - destruct (countUp_fold (λ d, orUncategorized (工作部位 d)) devs ∅ Hd H0)
      as [_ H].
    rewrite H, Hz. done.
  - rewrite (fold_left_nested
               (λ tbl' component,
                  countUp (orUncategorized (零部件名称 component)) tbl')
               零部件列表).
    rewrite component_count_fold.
    destruct (countUp_fold (λ c, orUncategorized (零部件名称 c))
                (flat_map 零部件列表 devs) ∅ Hc H0) as [_ H].
    rewrite H, Hz. done.
Qed.

(** On the three rows of the scenario no key is an inherited name, and
    the tables add up to the two devices and the three components. *)
Lemma generateStatistics_consistent_example :
  tableTotal (设备分类统计 (generateStatistics (processInheritance scenarioRows)))
  = 2
  ∧ tableTotal (零部件分类统计 (generateStatistics (processInheritance scenarioRows)))
    = 3.
Proof.
  exact (generateStatistics_consistent (processInheritance scenarioRows)
           ltac:(by vm_compute) ltac:(by vm_compute)).
Defined.

(** C10 at that file: one device and one component are counted, and neither
    table holds a count for them.  The read of the missing key finds the
    function that [Object.prototype] holds under that name, and [+ 1]
    turns it into a string. *)
Lemma generateStatistics_inherited_names :
  设备总数 (generateStatistics (processInheritance rowsWithInheritedNames)) = 1
  ∧ map_to_list
      (设备分类统计 (generateStatistics (processInheritance rowsWithInheritedNames)))
    = [ (js "constructor", PString (js "function Object() { [native code] }1")) ]
  ∧ tableTotal
      (设备分类统计 (generateStatistics (processInheritance rowsWithInheritedNames)))
    = 0
  ∧ 零部件总数 (generateStatistics (processInheritance rowsWithInheritedNames)) = 1
  ∧ map_to_list
      (零部件分类统计 (generateStatistics (processInheritance rowsWithInheritedNames)))
    = [ (js "toString", PString (js "function toString() { [native code] }1")) ]
  ∧ tableTotal
      (零部件分类统计 (generateStatistics (processInheritance rowsWithInheritedNames)))
    = 0.
Proof. by vm_compute. Qed.

(** ** Pagination *)

Lemma slice_forward {A} (l : list A) (start stop : Z) :
  (0 ≤ start)%Z → (0 ≤ stop)%Z →
  slice l start stop
  = take (Z.to_nat (stop - start)) (drop (Z.to_nat start) l).
Proof.
  intros H1 H2. unfold slice.
  destruct (Z.ltb_spec start 0) as [?|_]; [lia|].
  destruct (Z.ltb_spec stop 0) as [?|_]; [lia|].
  destruct (Z.le_gt_cases (Z.of_nat (length l)) start) as [Hout|Hin].
  - rewrite (Z.min_r start) by lia. rewrite !drop_ge by lia. by rewrite !take_nil.
  - rewrite (Z.min_l start) by lia.
    destruct (Z.le_gt_cases stop (Z.of_nat (length l))) as [Hs|Hs].
    + by rewrite (Z.min_l stop) by lia.
    + rewrite (Z.min_r stop) by lia.
      rewrite !take_ge; [done| |]; rewrite length_drop; lia.
Qed.

(** For a positive divisor [ceilDiv] is the least integer whose multiple
    reaches the dividend. *)
Lemma ceilDiv_positive (total pageSize : Z) :
  (0 < pageSize)%Z →
  ∃ n : Z, ceilDiv total pageSize = Finite (inject_Z n)
           ∧ ((n - 1) * pageSize < total ≤ n * pageSize)%Z.
Proof.
  intros H. exists (- (- total / pageSize))%Z. unfold ceilDiv.
  destruct (Z.eqb_spec pageSize 0) as [?|_]; [lia|]. split; [done|].
  pose proof (Z.div_mod (- total) pageSize ltac:(lia)) as Hdm.
  pose proof (Z.mod_pos_bound (- total) pageSize H) as Hb.
  nia.
Qed.

Lemma jsGt_integers (a b : Z) :
  jsGt (Finite (inject_Z a)) (Finite (inject_Z b)) = true ↔ (b < a)%Z.
Proof.
  unfold jsGt. destruct (Qlt_le_dec (inject_Z b) (inject_Z a)) as [H|H].
  - rewrite <- Zlt_Qlt in H. done.
  - rewrite <- Zle_Qle in H. split; [done | lia].
Qed.

(** C5, as the code has it.  For a page size that is not negative the
    result holds the number of devices and [Math.ceil(total / pageSize)]
    pages: for a positive size the least number of pages whose capacity
    reaches the number of devices, for the size 0 what the division by zero
    gives.  A page from 1 on holds the [pageSize] devices that follow the
    first [(page - 1) * pageSize], and a page beyond the number of pages
    holds no device. *)
Theorem paginateDevices_natural_size
    (devs : list Device) (page pageSize : Z) (Hsize : (0 ≤ pageSize)%Z) :
  total (paginateDevices devs page pageSize) = length devs
  ∧ totalPages (paginateDevices devs page pageSize)
    = ceilDiv (Z.of_nat (length devs)) pageSize
  ∧ ((0 < pageSize)%Z →
     ∃ n : Z,
       totalPages (paginateDevices devs page pageSize) = Finite (inject_Z n)
       ∧ ((n - 1) * pageSize < Z.of_nat (length devs) ≤ n * pageSize)%Z)
  ∧ (pageSize = 0%Z →
     totalPages (paginateDevices devs page pageSize)
     = match devs with [] => NaN | _ :: _ => PosInfinity end)
  ∧ ((1 ≤ page)%Z →
     data (paginateDevices devs page pageSize)
     = take (Z.to_nat pageSize) (drop (Z.to_nat ((page - 1) * pageSize)) devs))
  ∧ (jsGt (Finite (inject_Z page))
       (totalPages (paginateDevices devs page pageSize)) = true →
     data (paginateDevices devs page pageSize) = []).
Proof.
  assert (∀ p, (1 ≤ p)%Z →
            data (paginateDevices devs p pageSize)
            = take (Z.to_nat pageSize)
                (drop (Z.to_nat ((p - 1) * pageSize)) devs)) as Hdata.
  { intros p Hp. unfold paginateDevices. cbn [data].
    rewrite slice_forward by nia. f_equal. f_equal. lia. }
  split; [done|]. split; [done|].
  split; [intros Hpos; by apply ceilDiv_positive|].
  split; [intros ->; by destruct devs|].
  split; [by apply Hdata|].
  unfold paginateDevices at 1. cbn [totalPages].
  destruct (Z.eq_dec pageSize 0%Z) as [-> | Hne].
  { unfold ceilDiv. by destruct devs. }
  destruct (ceilDiv_positive (Z.of_nat (length devs)) pageSize ltac:(lia))
    as (n & Hn & Hlo & Hhi).
  rewrite Hn, jsGt_integers.
  intros Hbeyond. assert (0 ≤ n)%Z as Hn0 by nia.
  rewrite Hdata by lia.
  rewrite drop_ge; [by rewrite take_nil | nia].
Qed.

(** Page 3 of three devices by pages of two: there are two pages, and the
    page is empty. *)
Lemma paginateDevices_natural_size_example :
  (0 ≤ 2)%Z
  ∧ total (paginateDevices threeDevices 3 2) = 3
  ∧ totalPages (paginateDevices threeDevices 3 2) = Finite (2 # 1)
  ∧ data (paginateDevices threeDevices 3 2) = [].
Proof.
  destruct (paginateDevices_natural_size threeDevices 3 2 ltac:(lia))
    as (Ht & _ & _ & _ & _ & Hd).
  split; [lia|]. split; [exact Ht|]. split; [by vm_compute|].
  apply Hd. by vm_compute.
Defined.

(** C5 as stated fails for a negative page size: with three devices and
    pages of -1 the page count is -3, page 1 lies beyond it, and the slice
    from 0 to -1 holds the first two devices. *)
Lemma paginateDevices_negative_page_size :
  total (paginateDevices threeDevices 1 (-1)) = 3
  ∧ totalPages (paginateDevices threeDevices 1 (-1)) = Finite (-3 # 1)
  ∧ jsGt (Finite (1 # 1)) (totalPages (paginateDevices threeDevices 1 (-1)))
    = true
  ∧ map 设备编号 (data (paginateDevices threeDevices 1 (-1))) = [js "A"; js "B"].
Proof. by vm_compute. Qed.

(** ** Sorting *)

Lemma compareText_refl (a : jsstring) : compareText a a = Eq.
Proof. induction a as [|x a IH]; simpl; [done|]. by rewrite N.compare_refl. Qed.

Lemma compareText_eq (a b : jsstring) : compareText a b = Eq → a = b.
Proof.
  revert b. induction a as [|x a IH]; intros [|y b]; simpl; try done.
  destruct (N.compare_spec x y) as [-> | ? | ?]; try done.
  intros H. by rewrite (IH b H).
Qed.

Lemma compareText_antisym (a b : jsstring) :
  compareText b a = CompOpp (compareText a b).
Proof.
  revert b. induction a as [|x a IH]; intros [|y b]; simpl; try done.
  rewrite (N.compare_antisym x y).
  destruct (x ?= y)%N; simpl; [apply IH|done|done].
Qed.

Lemma compareText_trans (a b c : jsstring) :
  compareText a b = Lt → compareText b c = Lt → compareText a c = Lt.
Proof.
  revert b c.
  induction a as [|x a IH]; intros [|y b] [|z c]; simpl; try done.
  destruct (N.compare_spec x y) as [-> | Hxy | Hxy]; try done.
  - destruct (N.compare_spec y z) as [-> | Hyz | Hyz]; try done. apply IH.
  - intros _. destruct (N.compare_spec y z) as [-> | Hyz | Hyz]; try done.
    + intros _. destruct (N.compare_spec x z); [lia|done|lia].
    + intros _. destruct (N.compare_spec x z); [lia|done|lia].
Qed.

(** [compareAscending] is a three-way comparison of the keys: it only
    depends on the text of its arguments, it is antisymmetric, and its
    "before" is transitive. *)
Lemma compareAscending_range (a b : FieldValue) :
  (compareAscending a b = -1 ∨ compareAscending a b = 0
   ∨ compareAscending a b = 1)%Z.
Proof.
  unfold compareAscending.
  destruct (primitiveText a), (primitiveText b); auto.
  destruct (compareText _ _); auto.
Qed.

Lemma compareAscending_antisym (a b : FieldValue) :
  compareAscending b a = (- compareAscending a b)%Z.
Proof.
  unfold compareAscending.
  destruct (primitiveText a) as [s|], (primitiveText b) as [t|]; try done.
  rewrite (compareText_antisym s t). by destruct (compareText s t).
Qed.

Lemma compareAscending_zero (a b : FieldValue) :
  compareAscending a b = 0%Z ↔ primitiveText a = primitiveText b.
Proof.
  unfold compareAscending.
  destruct (primitiveText a) as [s|], (primitiveText b) as [t|]; try done.
  split.
  - destruct (compareText s t) eqn:E; try done.
    intros _. by rewrite (compareText_eq s t E).
  - intros [= ->]. by rewrite compareText_refl.
Qed.

Lemma compareAscending_text (a a' b b' : FieldValue) :
  primitiveText a = primitiveText a' → primitiveText b = primitiveText b' →
  compareAscending a b = compareAscending a' b'.
Proof. unfold compareAscending. by intros -> ->. Qed.

Lemma compareAscending_trans (a b c : FieldValue) :
  compareAscending a b = (-1)%Z → compareAscending b c = (-1)%Z →
  compareAscending a c = (-1)%Z.
Proof.
  unfold compareAscending.
  destruct (primitiveText a) as [s|], (primitiveText b) as [t|],
           (primitiveText c) as [u|]; try done.
  destruct (compareText s t) eqn:E1; try done.
  destruct (compareText t u) eqn:E2; try done.
  by rewrite (compareText_trans s t u E1 E2).
Qed.

(** The same for [compareMultiple], the comparer of the sort. *)
Lemma compareMultiple_total (order : SortDirection) (x y : SortEntry) :
  (0 < compareMultiple order x y → compareMultiple order y x ≤ 0)%Z.
Proof.
  unfold compareMultiple.
  rewrite (compareAscending_antisym (criteria x) (criteria y)).
  destruct (compareAscending_range (criteria x) (criteria y)) as [-> | [-> | ->]];
    destruct order; simpl; lia.
Qed.

Lemma compareMultiple_trans (order : SortDirection) (x y z : SortEntry) :
  (compareMultiple order x y ≤ 0 → compareMultiple order y z ≤ 0 →
   compareMultiple order x z ≤ 0)%Z.
Proof.
  unfold compareMultiple.
  destruct (Z.eqb_spec (compareAscending (criteria x) (criteria y)) 0) as [Hxy|Hxy].
  { apply compareAscending_zero in Hxy.
    rewrite (compareAscending_text (criteria x) (criteria y)
               (criteria z) (criteria z) Hxy eq_refl).
    destruct (Z.eqb_spec (compareAscending (criteria y) (criteria z)) 0); lia. }
  destruct (Z.eqb_spec (compareAscending (criteria y) (criteria z)) 0) as [Hyz|Hyz].
  { apply compareAscending_zero in Hyz.
    rewrite <- (compareAscending_text (criteria x) (criteria x)
                  (criteria y) (criteria z) eq_refl Hyz).
    destruct (Z.eqb_spec (compareAscending (criteria x) (criteria y)) 0); lia. }
  pose proof (compareAscending_trans (criteria x) (criteria y) (criteria z)) as Hlt.
  pose proof (compareAscending_trans (criteria z) (criteria y) (criteria x)) as Hgt.
  rewrite (compareAscending_antisym (criteria y) (criteria z)),
          (compareAscending_antisym (criteria x) (criteria y)),
          (compareAscending_antisym (criteria x) (criteria z)) in Hgt.
  destruct (compareAscending_range (criteria x) (criteria y)) as [Exy|[Exy|Exy]];
    destruct (compareAscending_range (criteria y) (criteria z)) as [Eyz|[Eyz|Eyz]];
    try done; rewrite Exy, Eyz in *; intros H1 H2.
  - rewrite Hlt by done. simpl. done.
  - destruct order; simpl in *; lia.
  - destruct order; simpl in *; lia.
  - assert (compareAscending (criteria x) (criteria z) = 1%Z) as -> by lia.
    simpl. done.
Qed.

(** Insertion sort with any comparer: a permutation. *)
Lemma insertSorted_perm {A} (comparer : A → A → Z) (x : A) (l : list A) :
  insertSorted comparer x l ≡ₚ x :: l.
Proof.
  induction l as [|y r IH]; simpl; [done|].
  destruct (0 <? comparer x y)%Z; [|done].
  rewrite IH. apply perm_swap.
Qed.

Lemma sortWith_perm {A} (comparer : A → A → Z) (l : list A) :
  sortWith comparer l ≡ₚ l.
Proof.
  induction l as [|x r IH]; simpl; [done|].
  by rewrite insertSorted_perm, IH.
Qed.

Section InsertionSort.

Context {A : Type} (comparer : A → A → Z).

Hypothesis comparer_total :
  ∀ x y, (0 < comparer x y → comparer y x ≤ 0)%Z.
Hypothesis comparer_trans :
  ∀ x y z, (comparer x y ≤ 0 → comparer y z ≤ 0 → comparer x z ≤ 0)%Z.

Lemma insertSorted_sorted (x : A) (l : list A) :
  StronglySorted (λ a b, comparer a b ≤ 0)%Z l →
  StronglySorted (λ a b, comparer a b ≤ 0)%Z (insertSorted comparer x l).
Proof.
  induction 1 as [|y r Hr IH Hy]; simpl.
  { repeat constructor. }
  destruct (Z.ltb_spec 0 (comparer x y)) as [Hgt|Hle].
  - constructor; [done|]. rewrite insertSorted_perm.
    constructor; [by apply comparer_total | done].
  - constructor; [by constructor|]. constructor; [done|].
    eapply Forall_impl; [exact Hy|]. intros z Hz. simpl in Hz.
    by apply (comparer_trans x y z).
Qed.

Lemma sortWith_sorted (l : list A) :
  StronglySorted (λ a b, comparer a b ≤ 0)%Z (sortWith comparer l).
Proof.
  induction l as [|x r IH]; simpl; [constructor|].
  by apply insertSorted_sorted.
Qed.

End InsertionSort.

(** An element that is never moved behind the elements of a class keeps
    its place in front of the class. *)
Lemma insertSorted_filter {A} (comparer : A → A → Z) (p : A → bool)
    (x : A) (l : list A) :
  Forall (λ y, p x = true → p y = true → (comparer x y ≤ 0)%Z) l →
  List.filter p (insertSorted comparer x l) = List.filter p (x :: l).
Proof.
  induction 1 as [|y r Hy _ IH]; [done|].
  cbn [insertSorted]. destruct (Z.ltb_spec 0 (comparer x y)) as [Hgt|Hle]; [|done].
  cbn [List.filter] in *. rewrite IH.
  destruct (p x) eqn:Ex, (p y) eqn:Ey; try done.
  specialize (Hy eq_refl eq_refl). lia.
Qed.

(** What [entriesFrom] builds: the devices in order, each with its own
    criterion and with an index from [i] on. *)
Lemma entriesFrom_spec (f : SortField) (devs : list Device) (i : nat) :
  map value (entriesFrom f i devs) = devs
  ∧ Forall (λ e, criteria e = getField f (value e) ∧ i ≤ index e)
      (entriesFrom f i devs).
Proof.
  revert i. induction devs as [|d r IH]; intros i; simpl; [done|].
  destruct (IH (S i)) as [H1 H2]. split; [by rewrite H1|].
  constructor; [by simpl|].
  eapply Forall_impl; [exact H2|]. simpl. intros e [? ?]. split; [done|lia].
Qed.

(** Sorting the entries keeps every class of equal keys in its order. *)
Lemma sortWith_entries_stable (f : SortField) (order : SortDirection)
    (key : option jsstring) (devs : list Device) (i : nat) :
  List.filter (λ e, bool_decide (primitiveText (criteria e) = key))
    (sortWith (compareMultiple order) (entriesFrom f i devs))
  = List.filter (λ e, bool_decide (primitiveText (criteria e) = key))
      (entriesFrom f i devs).
Proof.
  revert i. induction devs as [|d r IH]; intros i; [done|].
  cbn [entriesFrom sortWith foldr].
  change (foldr (insertSorted (compareMultiple order)) [] (entriesFrom f (S i) r))
    with (sortWith (compareMultiple order) (entriesFrom f (S i) r)).
  rewrite insertSorted_filter.
  - cbn [List.filter]. by rewrite IH.
  - rewrite sortWith_perm.
    destruct (entriesFrom_spec f r (S i)) as [_ H].
    eapply Forall_impl; [exact H|]. cbn [criteria index value].
    intros e [_ Hidx] H1 H2.
    apply bool_decide_eq_true in H1, H2.
    unfold compareMultiple. cbn [criteria index].
    rewrite (proj2 (compareAscending_zero (getField f d) (criteria e)))
      by congruence.
    simpl. lia.
Qed.

Lemma filter_map_value (p : Device → bool) (l : list SortEntry) :
  List.filter p (map value l) = map value (List.filter (λ e, p (value e)) l).
Proof.
  induction l as [|e r IH]; simpl; [done|].
  destruct (p (value e)); simpl; by rewrite IH.
Qed.

Lemma filter_ext_Forall {A} (p q : A → bool) (l : list A) :
  Forall (λ x, p x = q x) l → List.filter p l = List.filter q l.
Proof.
  induction 1 as [|x r Hx _ IH]; simpl; [done|]. by rewrite Hx, IH.
Qed.

Lemma sorted_entries_devices (f : SortField) (order : SortDirection)
    (l : list SortEntry) :
  Forall (λ e, criteria e = getField f (value e)) l →
  StronglySorted (λ a b, compareMultiple order a b ≤ 0)%Z l →
  StronglySorted (inOrder f order) (map value l).
Proof.
  intros Hcrit Hsorted.
  induction Hsorted as [|e r Hr IH He]; [constructor|].
  apply Forall_cons in Hcrit as [Hce Hcr].
  cbn [map]. constructor; [by apply IH|].
  apply Forall_map. apply Forall_forall. intros e' Hin.
  rewrite Forall_forall in He, Hcr.
  specialize (He e' Hin). specialize (Hcr e' Hin).
  unfold inOrder. rewrite <- Hce, <- Hcr. unfold compareMultiple in He.
  destruct (Z.eqb_spec (compareAscending (criteria e) (criteria e')) 0) as [-> | _];
    [lia | done].
Qed.

(** C4, as the code has it.  [sortDevices] returns a permutation of the
    list, ordered in the given direction by the device's own value of the
    field (texts by their code units, [compareText]), and stable: the
    devices whose value has the same text keep their order.  For a field
    that only components have (quantity and power among them) the value is
    [undefined] on every device, nothing is parsed, and the list comes
    back as it is. *)
Theorem sortDevices_ordering (devs : list Device) (sortOptions : SortOptions) :
  sortDevices devs sortOptions ≡ₚ devs
  ∧ StronglySorted (inOrder (field sortOptions) (direction sortOptions))
      (sortDevices devs sortOptions)
  ∧ (∀ key,
       List.filter (hasKeyText (field sortOptions) key)
         (sortDevices devs sortOptions)
       = List.filter (hasKeyText (field sortOptions) key) devs)
  ∧ (componentField (field sortOptions) = true →
     sortDevices devs sortOptions = devs).
Proof.
  destruct sortOptions as [f order]. unfold sortDevices, sortEntries.
  cbn [field direction].
  destruct (entriesFrom_spec f devs 0) as [Hval Hcrit].
  pose proof (sortWith_perm (compareMultiple order) (entriesFrom f 0 devs)) as Hperm.
  assert (Forall (λ e, criteria e = getField f (value e))
            (sortWith (compareMultiple order) (entriesFrom f 0 devs))) as Hcrit'.
  { rewrite Hperm. eapply Forall_impl; [exact Hcrit|]. by intros e [? _]. }
  assert (∀ key,
            List.filter (hasKeyText f key)
              (map value (sortWith (compareMultiple order) (entriesFrom f 0 devs)))
            = List.filter (hasKeyText f key) devs) as Hstable.
  { intros key. rewrite <- Hval at 2. rewrite !filter_map_value. f_equal.
    rewrite (filter_ext_Forall _
               (λ e, bool_decide (primitiveText (criteria e) = key)) _)
      by (eapply Forall_impl; [exact Hcrit'|]; unfold hasKeyText; by intros e ->).
    rewrite (filter_ext_Forall _
               (λ e, bool_decide (primitiveText (criteria e) = key))
               (entriesFrom f 0 devs))
      by (eapply Forall_impl; [exact Hcrit|]; unfold hasKeyText; by intros e [-> _]).
    apply sortWith_entries_stable. }
  split; [|split; [|split]].
  - rewrite Hperm. by rewrite Hval.
  - apply sorted_entries_devices; [done|].
    apply sortWith_sorted;
      [apply compareMultiple_total | apply compareMultiple_trans].
  - exact Hstable.
  - intros Hf.
    assert (∀ l : list Device, List.filter (hasKeyText f None) l = l) as Hall.
    { intros l. apply filter_all. apply List.Forall_forall. intros d _.
      by destruct f. }
    etransitivity; [symmetry; apply Hall|].
    etransitivity; [apply (Hstable None)|]. apply Hall.
Qed.

(** C4 as stated fails: sorted by power in ascending order the device with
    5KW stays in front of the one with 2KW, so the power texts are not
    parsed and compared as numbers; and sorted by device code Z1 goes in
    front of a1, the order of the code units. *)
Lemma sortDevices_power_not_numeric :
  map (λ d, map (λ c, extractPowerValue (电机功率 c)) (零部件列表 d))
    (sortDevices powerDevices {| field := field_电机功率; direction := asc |})
  = [ [Finite (5 # 1)]; [Finite (2 # 1)] ]
  ∧ map 设备编号
      (sortDevices mixedCaseDevices {| field := field_设备编号; direction := asc |})
    = [js "Z1"; js "a1"].
Proof. by vm_compute. Qed.

(** ** Search and filter: what they select *)

Lemma filter_sublist_of {A} (p : A → bool) (l : list A) :
  List.filter p l `sublist_of` l.
Proof.
  induction l as [|x r IH]; simpl; [constructor|].
  destruct (p x); by constructor.
Qed.

Lemma filter_elem_of {A} (p : A → bool) (l : list A) (x : A) :
  x ∈ List.filter p l ↔ x ∈ l ∧ p x = true.
Proof. rewrite !list_elem_of_In. apply filter_In. Qed.

Lemma filter_comm {A} (p q : A → bool) (l : list A) :
  List.filter p (List.filter q l) = List.filter q (List.filter p l).
Proof.
  induction l as [|x r IH]; simpl; [done|].
  destruct (p x) eqn:Ep, (q x) eqn:Eq; simpl; rewrite ?Ep, ?Eq, IH; done.
Qed.

Lemma startsWith_app (s r : jsstring) : startsWith s (s ++ r) = true.
Proof. induction s as [|c s IH]; simpl; [done|]. by rewrite N.eqb_refl. Qed.

(** A text includes each of its contiguous parts. *)
Lemma includes_middle (a s b : jsstring) : includes (a ++ s ++ b) s = true.
Proof.
  induction a as [|c a IH].
  - simpl. destruct s as [|x s]; simpl.
    + by destruct b.
    + by rewrite N.eqb_refl, startsWith_app.
  - cbn [app includes]. rewrite IH. apply orb_true_r.
Qed.

Lemma includes_self (s : jsstring) : includes s s = true.
Proof.
  pose proof (includes_middle [] s []) as H. by rewrite app_nil_r in H.
Qed.

Lemma includes_trim (s : jsstring) : includes s (trim s) = true.
Proof.
  destruct (trimEnd_prefix (trimStart s)) as [w Hw].
  pose proof (takeWhile_dropWhile isWhiteSpace s) as Hs.
  fold (trimStart s) in Hs. rewrite Hw in Hs. fold (trim s) in Hs.
  rewrite <- Hs at 1. apply includes_middle.
Qed.

Section SearchAndFilter.

Variable toLowerCase : jsstring → jsstring.

(** What the analysis page lists is a selection of the loaded devices in
    their order: the devices that pass the filter and, when the term is not
    blank, match the term; and searching before filtering gives the same
    list as filtering before searching. *)
Theorem applyFiltersAndSearch_selects
    (devs : list Device) (searchTerm : jsstring) (filters : FilterOptions) :
  applyFiltersAndSearch toLowerCase devs searchTerm filters `sublist_of` devs
  ∧ (∀ d,
       d ∈ applyFiltersAndSearch toLowerCase devs searchTerm filters
       ↔ d ∈ devs
         ∧ passesFilters toLowerCase filters d = true
         ∧ (trim searchTerm = []
            ∨ matchesTerm toLowerCase (trim (toLowerCase searchTerm)) d = true))
  ∧ applyFiltersAndSearch toLowerCase devs searchTerm filters
    = searchDevices toLowerCase (filterDevices toLowerCase devs filters)
        searchTerm.
Proof.
  unfold applyFiltersAndSearch, searchDevices, filterDevices.
  destruct searchTerm as [|c t] eqn:Et.
  { cbn [isEmpty negb orb]. split; [apply filter_sublist_of|]. split; [|done].
    intros d. rewrite filter_elem_of.
    split; [intros [? ?]; auto | intros (? & ? & _); auto]. }
  rewrite <- Et. replace (isEmpty searchTerm) with false by (by rewrite Et).
  cbn [negb orb].
  destruct (isEmpty (trim searchTerm)) eqn:Eb.
  - apply isEmpty_true in Eb. split; [apply filter_sublist_of|]. split; [|done].
    intros d. rewrite filter_elem_of.
    split; [intros [? ?]; auto | intros (? & ? & _); auto].
  - apply isEmpty_false in Eb. split; [|split].
    + etransitivity; apply filter_sublist_of.
    + intros d. rewrite !filter_elem_of.
      split; [intros [[? ?] ?]; auto | intros (? & ? & [?|?]); done].
    + apply filter_comm.
Qed.

Lemma matchesTerm_searched_text (d : Device) (t : jsstring) :
  t ∈ searchedTexts d →
  matchesTerm toLowerCase (trim (toLowerCase t)) d = true.
Proof.
  unfold searchedTexts, matchesTerm. intros Ht.
  apply elem_of_app in Ht as [Ht|Ht].
  - apply elem_of_cons in Ht as [-> | Ht].
    { by rewrite includes_trim. }
    apply elem_of_cons in Ht as [-> | Ht]; [|by apply elem_of_nil in Ht].
    by rewrite includes_trim, orb_true_r.
  - destruct (_ || _); [done|].
    apply list_elem_of_In, in_flat_map in Ht as (c & Hc & Ht).
    apply existsb_exists. exists c. split; [done|].
    apply list_elem_of_In in Ht.
    repeat (apply elem_of_cons in Ht as [-> | Ht];
            [rewrite includes_trim; by rewrite ?orb_true_r|]).
    by apply elem_of_nil in Ht.
Qed.

(** A loaded device is found by searching for any of its own texts, with
    whatever white space around, and is kept by a filter on its own code,
    its own work location, or the name or the specification of one of its
    components. *)
Theorem search_and_filter_find_own_text (devs : list Device) (d : Device) :
  d ∈ devs →
  (∀ t, t ∈ searchedTexts d → d ∈ searchDevices toLowerCase devs t)
  ∧ d ∈ filterDevices toLowerCase devs (filterByCode (设备编号 d))
  ∧ d ∈ filterDevices toLowerCase devs (filterByLocation (工作部位 d))
  ∧ (∀ c, c ∈ 零部件列表 d →
       d ∈ filterDevices toLowerCase devs (filterByComponentName (零部件名称 c))
       ∧ d ∈ filterDevices toLowerCase devs (filterBySpec (型号规格 c))).
Proof.
  intros Hd. split; [|split; [|split]].
  - intros t Ht. unfold searchDevices.
    destruct (isEmpty t || isEmpty (trim t)); [done|].
    apply filter_elem_of. split; [done|]. by apply matchesTerm_searched_text.
  - apply filter_elem_of. split; [done|].
    unfold passesFilters, filterByCode, includesIgnoreCase.
    cbn [filter_设备编号 filter_工作部位 filter_零部件名称 filter_型号规格 truthy default].
    unfold Datatypes.id. rewrite includes_self. cbn [negb andb]. by rewrite andb_false_r.
  - apply filter_elem_of. split; [done|].
    unfold passesFilters, filterByLocation, includesIgnoreCase.
    cbn [filter_设备编号 filter_工作部位 filter_零部件名称 filter_型号规格 truthy default].
    unfold Datatypes.id. rewrite includes_self. cbn [negb andb]. by rewrite andb_false_r.
  - intros c Hc.
    assert (∀ f : Component → jsstring,
              existsb (λ component,
                         includes (toLowerCase (f component)) (toLowerCase (f c)))
                (零部件列表 d) = true) as Hex.
    { intros f. apply existsb_exists. exists c.
      split; [by apply list_elem_of_In | apply includes_self]. }
    split; apply filter_elem_of; (split; [done|]);
      unfold passesFilters, filterByComponentName, filterBySpec, includesIgnoreCase;
      cbn [filter_设备编号 filter_工作部位 filter_零部件名称 filter_型号规格 truthy default];
      cbn [andb]; unfold Datatypes.id.
    + rewrite (Hex 零部件名称). cbn [negb]. by rewrite andb_false_r.
    + rewrite (Hex 型号规格). cbn [negb]. by rewrite andb_false_r.
Qed.

End SearchAndFilter.

(** ** Pagination: the pages cut the list *)

Lemma paginateDevices_data (devs : list Device) (page pageSize : Z) :
  (0 ≤ pageSize)%Z → (1 ≤ page)%Z →
  data (paginateDevices devs page pageSize)
  = take (Z.to_nat pageSize) (drop (Z.to_nat (page - 1) * Z.to_nat pageSize) devs).
Proof.
  intros Hs Hp. unfold paginateDevices. cbn [data].
  rewrite slice_forward by nia.
  replace (Z.to_nat ((page - 1) * pageSize + pageSize - (page - 1) * pageSize))
    with (Z.to_nat pageSize) by lia.
  replace (Z.to_nat ((page - 1) * pageSize))
    with (Z.to_nat (page - 1) * Z.to_nat pageSize) by nia.
  done.
Qed.

(** Consecutive chunks of [k] elements, enough of them, make up the list. *)
Lemma chunks_cover {A} (k n : nat) (l : list A) :
  length l ≤ n * k →
  flat_map (λ p, take k (drop (p * k) l)) (seq 0 n) = l.
Proof.
  revert l. induction n as [|n IH]; intros l Hl.
  { destruct l; [done | simpl in Hl; lia]. }
  cbn [seq flat_map]. rewrite <- seq_shift, flat_map_concat_map, map_map.
  rewrite <- flat_map_concat_map.
  rewrite (flat_map_ext _ (λ p, take k (drop (p * k) (drop k l)))).
  - rewrite IH by (rewrite length_drop; lia). apply take_drop.
  - intros p. by rewrite drop_drop.
Qed.

(** For a positive page size the pages 1 to [totalPages] hold, one after the
    other, exactly the devices of the list in their order; each of them holds
    at least one and at most [pageSize] devices, and all but the last are
    full. *)
Theorem paginateDevices_pages_cover
    (devs : list Device) (pageSize : Z) (Hsize : (0 < pageSize)%Z) :
  ∃ n : nat,
    (∀ page, totalPages (paginateDevices devs page pageSize)
             = Finite (inject_Z (Z.of_nat n)))
    ∧ flat_map (λ p, data (paginateDevices devs (Z.of_nat p) pageSize))
        (seq 1 n) = devs
    ∧ (∀ p, 1 ≤ p ≤ n →
         1 ≤ length (data (paginateDevices devs (Z.of_nat p) pageSize))
         ∧ (Z.of_nat (length (data (paginateDevices devs (Z.of_nat p) pageSize)))
            ≤ pageSize)%Z
         ∧ (p < n →
            Z.of_nat (length (data (paginateDevices devs (Z.of_nat p) pageSize)))
            = pageSize)).
Proof.
  destruct (ceilDiv_positive (Z.of_nat (length devs)) pageSize Hsize)
    as (z & Hz & Hlo & Hhi).
  assert (0 ≤ z)%Z as Hz0 by nia.
  exists (Z.to_nat z). rewrite Z2Nat.id by done.
  split; [done|]. split.
  - rewrite <- seq_shift, flat_map_concat_map, map_map, <- flat_map_concat_map.
    rewrite (flat_map_ext _ (λ p, take (Z.to_nat pageSize)
                                    (drop (p * Z.to_nat pageSize) devs))).
    + apply chunks_cover. nia.
    + intros p. rewrite paginateDevices_data by lia. do 3 f_equal. lia.
  - intros p Hp. rewrite paginateDevices_data by lia.
    rewrite length_take, length_drop.
    split; [nia|]. split; [lia|]. intros Hlt. nia.
Qed.

(** What the page buttons keep: starting from page 1 and clicking in any
    order, the current page stays between 1 and the number of pages; the
    page shown is not empty, and it holds the devices from position
    [shownFrom] to position [shownTo] of the list, as the page announces. *)
Theorem page_buttons_stay_in_range
    (devs : list Device) (pageSize pages : Z) (clicks : list PageButton)
    (Hsize : (0 < pageSize)%Z)
    (Hpages : totalPages (paginateDevices devs 1 pageSize)
              = Finite (inject_Z pages))
    (Hsome : devs ≠ []) :
  let currentPage := fold_left (clickPage pages) clicks 1%Z in
  let shown := data (paginateDevices devs currentPage pageSize) in
  (1 ≤ currentPage ≤ pages)%Z
  ∧ shown ≠ []
  ∧ (Z.of_nat (length shown)
     = shownTo currentPage pageSize (length devs)
       - shownFrom currentPage pageSize + 1)%Z
  ∧ ∀ i, i < length shown →
         shown !! i = devs !! (Z.to_nat (shownFrom currentPage pageSize) - 1 + i).
Proof.
  destruct (ceilDiv_positive (Z.of_nat (length devs)) pageSize Hsize)
    as (z & Hz & Hlo & Hhi).
  assert (pages = z) as ->.
  { unfold paginateDevices in Hpages. cbn [totalPages] in Hpages.
    rewrite Hz in Hpages. unfold inject_Z in Hpages. congruence. }
  assert (1 ≤ z)%Z as Hz1.
  { destruct devs; [done|]. simpl length in *. nia. }
  assert (∀ l cur, (1 ≤ cur ≤ z)%Z →
            (1 ≤ fold_left (clickPage z) l cur ≤ z)%Z) as Hinv.
  { induction l as [|b l IH]; intros cur Hcur; [done|].
    cbn [fold_left]. apply IH. destruct b; simpl; lia. }
  specialize (Hinv clicks 1%Z ltac:(lia)).
  intros currentPage shown. subst currentPage shown.
  set (cur := fold_left (clickPage z) clicks 1%Z) in *. clearbody cur.
  rewrite paginateDevices_data by lia.
  unfold shownTo, shownFrom.
  assert (length (take (Z.to_nat pageSize)
                    (drop (Z.to_nat (cur - 1) * Z.to_nat pageSize) devs))
          = Z.to_nat (Z.min (cur * pageSize) (Z.of_nat (length devs))
                      - (cur - 1) * pageSize)) as Hlen.
  { rewrite length_take, length_drop. nia. }
  assert ((cur - 1) * pageSize ≤ (z - 1) * pageSize)%Z as Hle by nia.
  split; [done|]. split; [|split].
  - intros Hnil. rewrite Hnil in Hlen. simpl in Hlen. lia.
  - rewrite Hlen. lia.
  - intros i Hi. rewrite length_take in Hi.
    rewrite lookup_take_lt by lia. rewrite lookup_drop.
    f_equal.
    assert (Z.to_nat ((cur - 1) * pageSize)
            = Z.to_nat (cur - 1) * Z.to_nat pageSize) as Hmul
      by (rewrite Z2Nat.inj_mul; lia).
    assert (0 ≤ (cur - 1) * pageSize)%Z by nia. lia.
Qed.

(** Three devices by pages of two: from page 1 the clicks next, next,
    previous, next lead to page 2, which shows the third device alone. *)
Lemma page_buttons_stay_in_range_example :
  (0 < 2)%Z
  ∧ totalPages (paginateDevices threeDevices 1 2) = Finite (inject_Z 2)
  ∧ threeDevices ≠ []
  ∧ fold_left (clickPage 2) [nextPage; nextPage; previousPage; nextPage] 1%Z
    = 2%Z
  ∧ map 设备编号 (data (paginateDevices threeDevices 2 2)) = [js "C"].
Proof.
  pose proof (page_buttons_stay_in_range threeDevices 2 2
                [nextPage; nextPage; previousPage; nextPage]
                ltac:(lia) ltac:(by vm_compute) ltac:(by vm_compute)) as H.
  split; [lia|]. split; [by vm_compute|]. split; [by vm_compute|].
  split; [by vm_compute|]. by vm_compute.
Defined.

(** Three devices by pages of two: two pages, A and B then C. *)
Lemma paginateDevices_pages_cover_example :
  (0 < 2)%Z
  ∧ map (λ p, map 设备编号 (data (paginateDevices threeDevices (Z.of_nat p) 2)))
      (seq 1 2)
    = [[js "A"; js "B"]; [js "C"]].
Proof.
  pose proof (paginateDevices_pages_cover threeDevices 2 ltac:(lia)) as H.
  split; [lia | by vm_compute].
Defined.

(** ** One loop iteration, case by case *)

Lemma withMoreComponents_nil (d : Device) : withMoreComponents d [] = d.
Proof. destruct d. unfold withMoreComponents. simpl. by rewrite app_nil_r. Qed.

(** A row with a device code closes the open device and opens the device of
    the row, with the component of the row if it names one. *)
Lemma processRow_opens (st : ParseState) (row : RawCSVRow) :
  nonBlank (row !! col_设备编号) = true →
  processRow st row
  = {| devices := flush st;
       currentDevice :=
         Some (rowDevice (deviceCounter st) row
                 (rowComponents (componentCounter st) row));
       deviceCounter := (deviceCounter st + 1)%N;
       componentCounter :=
         (componentCounter st
          + N.of_nat (length (rowComponents (componentCounter st) row)))%N |}.
Proof.
  intros Eo. unfold processRow, openDevice, addComponent, rowComponents, flush.
  rewrite Eo. cbn [currentDevice devices componentCounter deviceCounter].
  destruct (nonBlank (row !! col_零部件名称)); cbn [length N.of_nat];
    [done | by rewrite N.add_0_r].
Qed.

(** A row without a device code adds its component, if it names one, to
    the open device. *)
Lemma processRow_continues (st : ParseState) (row : RawCSVRow) (d : Device) :
  nonBlank (row !! col_设备编号) = false →
  currentDevice st = Some d →
  processRow st row
  = {| devices := devices st;
       currentDevice :=
         Some (withMoreComponents d (rowComponents (componentCounter st) row));
       deviceCounter := deviceCounter st;
       componentCounter :=
         (componentCounter st
          + N.of_nat (length (rowComponents (componentCounter st) row)))%N |}.
Proof.
  intros Eo Ecur. unfold processRow, openDevice, addComponent, rowComponents.
  rewrite Eo, Ecur.
  destruct (nonBlank (row !! col_零部件名称)); cbn [length N.of_nat]; [done|].
  rewrite withMoreComponents_nil, N.add_0_r, <- Ecur. by destruct st.
Qed.

(** A row without a device code changes nothing while no device is open. *)
Lemma processRow_dropped (st : ParseState) (row : RawCSVRow) :
  nonBlank (row !! col_设备编号) = false →
  currentDevice st = None →
  processRow st row = st.
Proof.
  intros Eo Ecur. unfold processRow, openDevice, addComponent.
  by rewrite Eo, Ecur.
Qed.

(** ** Identifiers: numbered in order, and good for looking up *)

Lemma digitsOfUint_inj (u v : Decimal.uint) :
  digitsOfUint u = digitsOfUint v → u = v.
Proof.
  revert v. induction u as [|u IH|u IH|u IH|u IH|u IH|u IH|u IH|u IH|u IH|u IH];
    intros [|v|v|v|v|v|v|v|v|v|v]; simpl; try done;
    intros [= H]; by rewrite (IH v H).
Qed.

Lemma numberToString_inj (n m : N) : numberToString n = numberToString m → n = m.
Proof.
  intros H. apply digitsOfUint_inj in H. by apply DecimalN.Unsigned.to_uint_inj.
Qed.

Lemma deviceIdOf_inj : Inj (=) (=) deviceIdOf.
Proof.
  intros k l H. unfold deviceIdOf in H.
  apply app_inv_head, numberToString_inj in H. lia.
Qed.

Lemma seq_snoc (start len : nat) :
  seq start (S len) = seq start len ++ [start + len].
Proof. by rewrite seq_S. Qed.

Lemma allComponents_app (l1 l2 : list Device) :
  allComponents (l1 ++ l2) = allComponents l1 ++ allComponents l2.
Proof. apply flat_map_app. Qed.

Lemma allComponents_single (d : Device) : allComponents [d] = 零部件列表 d.
Proof. unfold allComponents. simpl. apply app_nil_r. Qed.

(** The ids of the components a row adds, with the counter at [S n]. *)
Lemma rowComponents_ids (n : nat) (row : RawCSVRow) :
  map c_id (rowComponents (N.of_nat (S n)) row)
  = map componentIdOf (seq (S n) (length (rowComponents (N.of_nat (S n)) row))).
Proof. unfold rowComponents. by destruct (nonBlank _). Qed.

Lemma flush_open (devs : list Device) (d : Device) (dc cc : N) :
  flush {| devices := devs; currentDevice := Some d;
           deviceCounter := dc; componentCounter := cc |} = devs ++ [d].
Proof. done. Qed.

(** One loop iteration keeps the numbering. *)
Lemma processRow_numbered (st : ParseState) (row : RawCSVRow) :
  numberedState st → numberedState (processRow st row).
Proof.
  intros (H1 & H2 & H3 & H4).
  destruct (nonBlank (row !! col_设备编号)) eqn:Eo.
  - rewrite (processRow_opens st row Eo). unfold numberedState.
    rewrite !flush_open.
    cbn [currentDevice devices componentCounter deviceCounter].
    rewrite allComponents_app, allComponents_single, !length_app, !map_app.
    cbn [零部件列表 rowDevice length map id].
    rewrite H1, H2, H3, H4, rowComponents_ids.
    rewrite Nat.add_1_r, seq_snoc, map_app, seq_app. cbn [map Nat.add].
    rewrite map_app. split; [lia|]. split; [lia|]. split; reflexivity.
  - destruct (currentDevice st) as [d|] eqn:Ecur.
    2:{ by rewrite (processRow_dropped st row Eo Ecur). }
    rewrite (processRow_continues st row d Eo Ecur).
    unfold numberedState, flush in *. rewrite Ecur in *.
    cbn [currentDevice devices componentCounter deviceCounter].
    rewrite allComponents_app, allComponents_single, !length_app, !map_app in *.
    cbn [零部件列表 withMoreComponents length map id] in *.
    rewrite !length_app, !map_app.
    split; [done|]. split; [rewrite H2; lia|]. split; [done|].
    rewrite H2, rowComponents_ids, app_assoc, H4, Nat.add_assoc.
    set (a := length (allComponents (devices st)) + length (零部件列表 d)).
    by rewrite (seq_app a), map_app.
Qed.

Lemma processRows_numbered (rows : list RawCSVRow) (st : ParseState) :
  numberedState st → numberedState (fold_left processRow rows st).
Proof.
  revert st. induction rows as [|row rest IH]; intros st H; [done|].
  cbn [fold_left]. by apply IH, processRow_numbered.
Qed.

(** Looking up by a key that no two elements share gives the element back. *)
Lemma find_by_key {A} (key : A → jsstring) (l : list A) (x : A) :
  NoDup (map key l) → x ∈ l →
  List.find (λ y, bool_decide (key y = key x)) l = Some x.
Proof.
  induction l as [|y r IH]; intros Hnd Hx; [by apply elem_of_nil in Hx|].
  cbn [map] in Hnd. apply NoDup_cons in Hnd as [Hy Hr]. cbn [List.find].
  apply elem_of_cons in Hx as [-> | Hx].
  - by rewrite bool_decide_true.
  - rewrite bool_decide_false; [by apply IH|].
    intros E. apply Hy. rewrite E. by apply list_elem_of_fmap_2.
Qed.

(** The devices come out numbered device-1, device-2, ... in their order
    and the components component-1, component-2, ... in theirs, over all
    devices; so the device page finds every device by its id, and finds that
    device. *)
Theorem processInheritance_ids (rows : list RawCSVRow) :
  map id (processInheritance rows)
  = map deviceIdOf (seq 1 (length (processInheritance rows)))
  ∧ map c_id (allComponents (processInheritance rows))
    = map componentIdOf
        (seq 1 (length (allComponents (processInheritance rows))))
  ∧ ∀ d, d ∈ processInheritance rows →
         findDevice (processInheritance rows) (id d) = Some d.
Proof.
  destruct (processRows_numbered (validRows rows) initialState)
    as (_ & _ & H3 & H4); [by repeat split|].
  fold (processInheritance rows) in H3, H4.
  split; [done|]. split; [done|].
  intros d Hd. apply (find_by_key id); [|done].
  rewrite H3. apply NoDup_fmap_2; [apply deviceIdOf_inj | apply NoDup_seq].
Qed.

(** ** The upload page: what gets stored *)

(** A row that opens a device in the reconstruction counts as a device in
    the validation. *)
Lemma validRows_counted (rows : list RawCSVRow) :
  List.filter opensDevice (validRows rows) ≠ [] →
  existsb countsAsDevice rows = true.
Proof.
  intros H. destruct (List.filter opensDevice (validRows rows)) as [|row r] eqn:E;
    [done|].
  assert (In row (List.filter opensDevice (validRows rows))) as Hin
    by (rewrite E; by left).
  apply filter_In in Hin as [Hin Hopen]. unfold validRows in Hin.
  apply filter_In in Hin as [Hin Hvalid].
  apply existsb_exists. exists row. split; [done|].
  apply andb_true_iff in Hvalid as [_ Hhead]. apply negb_true_iff in Hhead.
  unfold isHeaderRow in Hhead. apply orb_false_iff in Hhead as [Hhead _].
  unfold countsAsDevice. by rewrite Hhead.
Qed.

(** The upload stores a device list exactly when the first row has the
    seven columns and the reconstruction gives at least one device, and
    what it stores is that reconstruction: never an empty list, and only
    well-formed devices.  (The validator's own device count adds nothing:
    it is positive whenever a device comes out.) *)
Theorem upload_stores_reconstruction
    (rawData : list RawCSVRow) (stored : list Device) :
  (handleFileUpload rawData = uploadStored stored
   ↔ stored = processInheritance rawData
     ∧ stored ≠ []
     ∧ ∃ firstRow rest,
         rawData = firstRow :: rest
         ∧ forallb (hasColumn firstRow) requiredColumns = true)
  ∧ (handleFileUpload rawData = uploadStored stored →
     Forall deviceWellFormed stored).
Proof.
  assert (handleFileUpload rawData = uploadStored stored
          ↔ stored = processInheritance rawData
            ∧ stored ≠ []
            ∧ ∃ firstRow rest,
                rawData = firstRow :: rest
                ∧ forallb (hasColumn firstRow) requiredColumns = true) as Hiff.
  { unfold handleFileUpload.
    destruct rawData as [|firstRow rest].
    { cbn. split; [done|]. intros (_ & _ & ? & ? & [=] & _). }
    destruct (validateData_errors firstRow rest) as [He Hv].
    destruct (processRows_counts (validRows (firstRow :: rest)) initialState)
      as [Hlen _].
    fold (processInheritance (firstRow :: rest)) in Hlen. cbn [flush initialState
      currentDevice devices length Nat.add] in Hlen.
    rewrite Hv, He. clear Hv He.
    set (missing := List.filter (λ col, negb (hasColumn firstRow col))
                      requiredColumns).
    assert (forallb (hasColumn firstRow) requiredColumns = true ↔ missing = [])
      as Hcols.
    { subst missing. induction requiredColumns as [|col cols IH]; [done|].
      cbn [forallb List.filter]. destruct (hasColumn firstRow col); simpl;
        [done | split; done]. }
    destruct (Nat.eqb_spec (length (processInheritance (firstRow :: rest))) 0)
      as [Hzero|Hpos].
    - apply length_zero_iff_nil in Hzero.
      split.
      + by destruct (negb _).
      + intros (-> & Hne & _). done.
    - assert (existsb countsAsDevice (firstRow :: rest) = true) as Hcount.
      { apply validRows_counted. intros Hnil. rewrite Hnil in Hlen.
        simpl in Hlen. lia. }
      rewrite Hcount, app_nil_r.
      destruct missing as [|m ms] eqn:Em; cbn [length Nat.ltb Nat.leb negb Nat.eqb].
      + split.
        * intros [= <-]. split; [done|]. split.
          { intros Hnil. by rewrite Hnil in Hpos. }
          exists firstRow, rest. split; [done|]. by apply Hcols.
        * intros (-> & _ & _). done.
      + split; [done|]. intros (_ & _ & f & r & [= <- <-] & Hall).
        apply Hcols in Hall. done. }
  split; [exact Hiff|].
  intros H. apply Hiff in H as (-> & _ & _).
  unfold processInheritance, flush.
  destruct (processRows_well_formed (validRows rawData) initialState) as [Hd Hc].
  { split; [constructor | intros d [=]]. }
  destruct (currentDevice _) as [d|]; [|done].
  apply Forall_app. split; [done|]. constructor; auto.
Qed.

(** ** Export and reconstruction: a round trip *)

Lemma columns_distinct :
  NoDup [col_设备编号; col_工作部位; col_零部件名称; col_型号规格;
         col_数量及米数; col_电机功率; col_备注].
Proof. apply (bool_decide_unpack _). by vm_compute. Qed.

(** The seven cells of a row, by column. *)
Lemma rowOfCells_lookup (a b c d e f g : jsstring) :
  let row := rowOfCells [a; b; c; d; e; f; g] in
  row !! col_设备编号 = Some a ∧ row !! col_工作部位 = Some b
  ∧ row !! col_零部件名称 = Some c ∧ row !! col_型号规格 = Some d
  ∧ row !! col_数量及米数 = Some e ∧ row !! col_电机功率 = Some f
  ∧ row !! col_备注 = Some g.
Proof.
  unfold rowOfCells. cbn [zip zip_with list_to_map foldr uncurry fst snd].
  repeat split;
    repeat (first [ rewrite lookup_insert_eq; reflexivity
                  | rewrite lookup_insert_ne by (by vm_compute) ]).
Qed.

Lemma hasContent_cell (row : RawCSVRow) (col cell : jsstring) :
  row !! col = Some cell → nonBlank (Some cell) = true → hasContent row = true.
Proof.
  intros Hrow Hcell. apply existsb_exists. exists (col, cell).
  split; [|done]. by apply list_elem_of_In, elem_of_map_to_list.
Qed.

Lemma nonBlank_trimmed (s : jsstring) :
  s ≠ [] → trimmedText s → nonBlank (Some s) = true.
Proof.
  intros Hs Ht. unfold nonBlank. rewrite Ht.
  apply isEmpty_false in Hs. by rewrite Hs.
Qed.

Lemma trimOrEmpty_trimmed (s : jsstring) :
  trimmedText s → trimOrEmpty (Some s) = s.
Proof. intros Ht. unfold trimOrEmpty. rewrite Ht. by destruct s. Qed.

(** The component the loop builds from the row of a well-formed component
    is that component, its id apart. *)
Lemma rowComponents_exported (k : N) (a b : jsstring) (c : Component) :
  componentWellFormed c →
  ∃ c', rowComponents k
          (rowOfCells [a; b; 零部件名称 c; 型号规格 c; 数量及米数 c;
                       电机功率 c; 备注 c]) = [c']
        ∧ componentContents c' = componentContents c.
Proof.
  intros (Hne & _ & H1 & H2 & H3 & H4 & H5).
  destruct (rowOfCells_lookup a b (零部件名称 c) (型号规格 c) (数量及米数 c)
              (电机功率 c) (备注 c)) as (_ & _ & L3 & L4 & L5 & L6 & L7).
  eexists. unfold rowComponents, rowComponent. rewrite L3, L4, L5, L6, L7.
  rewrite (nonBlank_trimmed _ Hne H1). split; [done|].
  unfold componentContents. cbn [零部件名称 型号规格 数量及米数 电机功率 备注 default].
  unfold Datatypes.id.
  by rewrite H1, !trimOrEmpty_trimmed.
Qed.

(** The rows of the other components of a device, one after the other, add
    these components to the open device. *)
Lemma processRows_continuation (cs : list Component) (st : ParseState) (d : Device) :
  Forall componentWellFormed cs →
  currentDevice st = Some d →
  ∃ more,
    currentDevice
      (fold_left processRow
         (map (λ c, rowOfCells [[]; []; 零部件名称 c; 型号规格 c; 数量及米数 c;
                                电机功率 c; 备注 c]) cs) st)
    = Some (withMoreComponents d more)
    ∧ devices
        (fold_left processRow
           (map (λ c, rowOfCells [[]; []; 零部件名称 c; 型号规格 c; 数量及米数 c;
                                  电机功率 c; 备注 c]) cs) st)
      = devices st
    ∧ map componentContents more = map componentContents cs.
Proof.
  intros Hcs. revert st d. induction Hcs as [|c r Hc _ IH]; intros st d Hcur.
  { exists []. by rewrite withMoreComponents_nil. }
  cbn [map fold_left].
  destruct (rowOfCells_lookup [] [] (零部件名称 c) (型号规格 c) (数量及米数 c)
              (电机功率 c) (备注 c)) as (L1 & _).
  rewrite (processRow_continues st _ d) by (by rewrite ?L1).
  destruct (rowComponents_exported (componentCounter st) [] [] c Hc)
    as (c' & -> & Hc').
  match goal with
  | |- context [fold_left processRow _ ?s] =>
    destruct (IH s (withMoreComponents d [c']) eq_refl) as (more & H1 & H2 & H3)
  end.
  exists (c' :: more). rewrite H1, H2. split; [|split; [done|]].
  - f_equal. unfold withMoreComponents. cbn [id 设备编号 工作部位 零部件列表].
    by rewrite <- app_assoc.
  - cbn [map]. by rewrite Hc', H3.
Qed.

(** The rows of a device close the open device and leave the device open,
    its ids apart. *)
Lemma processRows_device (d : Device) (st : ParseState) :
  deviceWellFormed d →
  ∃ d',
    currentDevice
      (fold_left processRow (map rowOfCells (exportDeviceRows d)) st) = Some d'
    ∧ devices (fold_left processRow (map rowOfCells (exportDeviceRows d)) st)
      = flush st
    ∧ deviceContents d' = deviceContents d.
Proof.
  intros (Hne & _ & Hcode & Hloc & Hcs). unfold exportDeviceRows.
  destruct (零部件列表 d) as [|c cs] eqn:Ecs.
  - cbn [map fold_left].
    destruct (rowOfCells_lookup (设备编号 d) (工作部位 d) [] [] [] [] [])
      as (L1 & L2 & L3 & _).
    rewrite processRow_opens by (rewrite L1; by apply nonBlank_trimmed).
    eexists. cbn [currentDevice devices]. split; [done|]. split; [done|].
    unfold deviceContents, rowDevice, rowComponents.
    cbn [设备编号 工作部位 零部件列表]. rewrite L1, L2, L3, Ecs.
    cbn [nonBlank isEmpty negb andb default map]. unfold Datatypes.id.
    by rewrite Hcode, trimOrEmpty_trimmed.
  - apply Forall_cons in Hcs as [Hc Hcs]. cbn [map fold_left].
    destruct (rowOfCells_lookup (设备编号 d) (工作部位 d) (零部件名称 c)
                (型号规格 c) (数量及米数 c) (电机功率 c) (备注 c))
      as (L1 & L2 & _).
    rewrite processRow_opens by (rewrite L1; by apply nonBlank_trimmed).
    destruct (rowComponents_exported (componentCounter st) (设备编号 d)
                (工作部位 d) c Hc) as (c' & -> & Hc').
    rewrite map_map.
    match goal with
    | |- context [fold_left processRow _ ?s] =>
      destruct (processRows_continuation cs s _ Hcs eq_refl)
        as (more & H1 & H2 & H3)
    end.
    rewrite H1, H2. eexists. split; [done|]. split; [done|].
    unfold deviceContents, withMoreComponents, rowDevice.
    cbn [设备编号 工作部位 零部件列表]. rewrite L1, L2, Ecs.
    cbn [default map app]. unfold Datatypes.id.
    by rewrite Hcode, trimOrEmpty_trimmed, Hc', H3.
Qed.

Lemma processRows_devices (devs : list Device) (st : ParseState) :
  Forall deviceWellFormed devs →
  map deviceContents
    (flush (fold_left processRow
              (map rowOfCells (flat_map exportDeviceRows devs)) st))
  = map deviceContents (flush st) ++ map deviceContents devs.
Proof.
  intros Hdevs. revert st. induction Hdevs as [|d r Hd _ IH]; intros st.
  { simpl. by rewrite app_nil_r. }
  cbn [flat_map]. rewrite map_app, fold_left_app, IH.
  destruct (processRows_device d st Hd) as (d' & H1 & H2 & H3).
  unfold flush at 1. rewrite H1, H2, map_app. cbn [map].
  by rewrite H3, <- app_assoc.
Qed.

(** Every exported row of a well-formed device without header text is kept
    by the filter of the reconstruction. *)
Lemma exported_rows_valid (d : Device) :
  deviceWellFormed d → noHeaderText d →
  Forall (λ row, hasContent row && negb (isHeaderRow row) = true)
    (map rowOfCells (exportDeviceRows d)).
Proof.
  intros (Hne & _ & Hcode & _ & Hcs) [Hhead Hheads].
  assert (∀ a b (c : Component),
            componentWellFormed c → 零部件名称 c ≠ col_零部件名称 →
            a ≠ col_设备编号 →
            hasContent (rowOfCells [a; b; 零部件名称 c; 型号规格 c; 数量及米数 c;
                                    电机功率 c; 备注 c])
            && negb (isHeaderRow
                       (rowOfCells [a; b; 零部件名称 c; 型号规格 c; 数量及米数 c;
                                    电机功率 c; 备注 c])) = true) as Hrow.
  { intros a b c (Hn & _ & Ht & _) Hh Ha.
    destruct (rowOfCells_lookup a b (零部件名称 c) (型号规格 c) (数量及米数 c)
                (电机功率 c) (备注 c)) as (L1 & _ & L3 & _).
    rewrite (hasContent_cell _ _ _ L3) by (by apply nonBlank_trimmed).
    unfold isHeaderRow. rewrite L1, L3.
    rewrite !bool_decide_false by congruence. done. }
  unfold exportDeviceRows. destruct (零部件列表 d) as [|c cs].
  - repeat constructor.
    destruct (rowOfCells_lookup (设备编号 d) (工作部位 d) [] [] [] [] [])
      as (L1 & _ & L3 & _).
    rewrite (hasContent_cell _ _ _ L1) by (by apply nonBlank_trimmed).
    unfold isHeaderRow. rewrite L1, L3.
    rewrite bool_decide_false by congruence.
    rewrite bool_decide_false; [done|]. by vm_compute.
  - apply Forall_cons in Hcs as [Hc Hcs]. apply Forall_cons in Hheads as [Hh Hhs].
    cbn [map]. constructor; [by apply Hrow|].
    rewrite map_map. apply Forall_map.
    rewrite Forall_forall in Hcs, Hhs. apply Forall_forall. intros c' Hc'.
    apply Hrow; [by apply Hcs | by apply Hhs | by vm_compute].
Qed.

(** Reconstructing the devices from the rows of their export gives the same
    devices, ids apart: same codes, same work locations, same components
    with the same texts, in the same order.  This holds for well-formed
    devices none of whose texts would be taken for a header line. *)
Theorem export_then_reconstruct (devs : list Device) :
  Forall deviceWellFormed devs → Forall noHeaderText devs →
  map deviceContents (processInheritance (reimportedRows devs))
  = map deviceContents devs.
Proof.
  intros Hwf Hnh. unfold processInheritance, reimportedRows, exportRows.
  cbn [tail]. unfold validRows. rewrite filter_all.
  - by rewrite processRows_devices.
  - rewrite flat_map_concat_map, concat_map, map_map. apply Forall_concat.
    apply Forall_map. rewrite Forall_forall in Hwf, Hnh.
    apply Forall_forall. intros d Hd. apply exported_rows_valid; auto.
Qed.

(** The devices of the power scenario, exported and read again. *)
Lemma export_then_reconstruct_example :
  Forall deviceWellFormed powerDevices ∧ Forall noHeaderText powerDevices
  ∧ map deviceContents (processInheritance (reimportedRows powerDevices))
    = map deviceContents powerDevices.
Proof.
  assert (Forall deviceWellFormed powerDevices) as Hwf
    by (vm_compute; repeat constructor; done).
  assert (Forall noHeaderText powerDevices) as Hnh
    by (vm_compute; repeat constructor; done).
  split; [done|]. split; [done|]. by apply export_then_reconstruct.
Defined.

(** The first device of the power scenario is found by the text 5KW of its
    component and by its own code. *)
Lemma search_and_filter_find_own_text_example :
  firstPowerDevice ∈ powerDevices
  ∧ firstPowerDevice ∈ searchDevices asciiToLowerCase powerDevices (js "5KW")
  ∧ firstPowerDevice
    ∈ filterDevices asciiToLowerCase powerDevices (filterByCode (js "HC-001")).
Proof.
  assert (firstPowerDevice ∈ powerDevices) as Hd by (vm_compute; constructor).
  destruct (search_and_filter_find_own_text asciiToLowerCase powerDevices
              firstPowerDevice Hd) as (Hsearch & Hcode & _).
  split; [done|]. split; [|exact Hcode].
  apply Hsearch. apply list_elem_of_In. vm_compute.
  repeat (first [left; reflexivity | right]).
Defined.

(** ** The exported text keeps the cells apart *)

Lemma comma_eq : js "," = [44%N].
Proof. by vm_compute. Qed.

Lemma flat_map_map {A B C} (f : A → B) (g : B → list C) (l : list A) :
  flat_map g (map f l) = flat_map (λ x, g (f x)) l.
Proof. induction l as [|x r IH]; simpl; [done | by rewrite IH]. Qed.

Lemma rowText_cells (cell : jsstring) (cells : list jsstring) :
  44%N :: join (js ",") (map quoteCell (cell :: cells))
  = cellsText (cell :: cells).
Proof.
  cbn [map]. unfold join. by rewrite flat_map_map, comma_eq.
Qed.

Lemma csvText_lines (row : list jsstring) (rows : list (list jsstring)) :
  10%N :: csvText (row :: rows) = linesText (row :: rows).
Proof.
  unfold csvText. cbn [map]. unfold join at 1. by rewrite flat_map_map.
Qed.

(** A quoted cell ends at the first double quote that is not doubled. *)
Lemma escape_unique (c c' t t' : jsstring) :
  noQuoteAhead t → noQuoteAhead t' →
  flat_map (λ x, if (x =? quoteChar)%N then [quoteChar; quoteChar] else [x]) c
    ++ quoteChar :: t
  = flat_map (λ x, if (x =? quoteChar)%N then [quoteChar; quoteChar] else [x]) c'
    ++ quoteChar :: t' →
  c = c' ∧ t = t'.
Proof.
  unfold noQuoteAhead. intros Ht Ht'. revert c'.
  induction c as [|x r IH]; intros [|x' r']; cbn [flat_map app].
  - by intros [= ->].
  - destruct (N.eqb_spec x' quoteChar) as [-> | Hx]; cbn [app].
    + intros [= ->]. by destruct Ht.
    + intros [= <- _]. by destruct Hx.
  - destruct (N.eqb_spec x quoteChar) as [-> | Hx]; cbn [app].
    + intros [= <-]. by destruct Ht'.
    + intros [= -> _]. by destruct Hx.
  - destruct (N.eqb_spec x quoteChar) as [-> | Hx],
             (N.eqb_spec x' quoteChar) as [-> | Hx']; cbn [app].
    + intros [= H]. destruct (IH _ H) as [-> ->]. done.
    + intros [= <- _]. by destruct Hx'.
    + intros [= -> _]. by destruct Hx.
    + intros [= -> H]. destruct (IH _ H) as [-> ->]. done.
Qed.

Lemma cellsText_ahead (cells : list jsstring) (t : jsstring) :
  endOfRow t → noQuoteAhead (cellsText cells ++ t).
Proof.
  unfold noQuoteAhead, endOfRow. destruct cells as [|c r]; cbn; [|done].
  intros [-> | ->]; done.
Qed.

(** The cells of a row can be read back from its text. *)
Lemma cells_unique (cells cells' : list jsstring) (t t' : jsstring) :
  endOfRow t → endOfRow t' →
  cellsText cells ++ t = cellsText cells' ++ t' →
  cells = cells' ∧ t = t'.
Proof.
  intros Ht Ht'. revert cells'.
  induction cells as [|c r IH]; intros [|c' r']; cbn [cellsText flat_map app].
  - done.
  - intros ->. by destruct Ht as [Ht | Ht]; cbn in Ht.
  - intros <-. by destruct Ht' as [Ht' | Ht']; cbn in Ht'.
  - unfold quoteCell. cbn [app]. rewrite <- !app_assoc. cbn [app].
    intros [= H]. fold (cellsText r) in H. fold (cellsText r') in H.
    apply escape_unique in H as [-> H]; [|by apply cellsText_ahead..].
    destruct (IH _ H) as [-> ->]. done.
Qed.

Lemma linesText_end (rows : list (list jsstring)) : endOfRow (linesText rows).
Proof. destruct rows; [by left | by right]. Qed.

(** The rows of a table can be read back from its text, when no row is
    without cells. *)
Lemma lines_unique (rows rows' : list (list jsstring)) :
  Forall (λ row, row ≠ []) rows → Forall (λ row, row ≠ []) rows' →
  linesText rows = linesText rows' → rows = rows'.
Proof.
  intros Hrows. revert rows'.
  induction Hrows as [|row r Hrow _ IH]; intros rows' Hrows'.
  - destruct rows'; [done | by cbn].
  - destruct Hrows' as [|row' r' Hrow' Hr']; [by cbn|].
    cbn [linesText flat_map app]. intros [= H].
    fold (linesText r) in H. fold (linesText r') in H.
    destruct row as [|c cs]; [done|]. destruct row' as [|c' cs']; [done|].
    assert (cellsText (c :: cs) ++ linesText r
            = cellsText (c' :: cs') ++ linesText r') as H'.
    { rewrite <- !rowText_cells. cbn [app]. by rewrite H. }
    apply cells_unique in H' as [-> H']; [|apply linesText_end..].
    by rewrite (IH _ Hr' H').
Qed.

Lemma csvText_injective (rows rows' : list (list jsstring)) :
  Forall (λ row, row ≠ []) rows → Forall (λ row, row ≠ []) rows' →
  csvText rows = csvText rows' → rows = rows'.
Proof.
  intros Hrows Hrows' H.
  destruct rows as [|row r], rows' as [|row' r']; [done| | |].
  - apply Forall_cons in Hrows' as [Hrow' _].
    destruct row' as [|c' cs']; [done|]. by vm_compute in H.
  - apply Forall_cons in Hrows as [Hrow _].
    destruct row as [|c cs]; [done|]. by vm_compute in H.
  - apply lines_unique; [done.. |]. rewrite <- !csvText_lines. by rewrite H.
Qed.

Lemma exportRows_cells (devs : list Device) :
  Forall (λ row, row ≠ []) (exportRows devs).
Proof.
  unfold exportRows. constructor; [by vm_compute|].
  rewrite flat_map_concat_map. apply Forall_concat, Forall_map, Forall_forall.
  intros d _. unfold exportDeviceRows. destruct (零部件列表 d) as [|c cs].
  - by repeat constructor.
  - constructor; [done|]. apply Forall_map, Forall_forall. done.
Qed.

(** Two device lists are exported to the same text only when they give the
    same table of cells: a comma, a double quote or a line feed inside a
    cell never moves the border of a cell or of a row. *)
Theorem exportToCSV_injective (devs devs' : list Device) :
  exportToCSV devs = exportToCSV devs' ↔ exportRows devs = exportRows devs'.
Proof.
  unfold exportToCSV. split; [|by intros ->].
  apply csvText_injective; apply exportRows_cells.
Qed.

(** ** The two readings of a power text *)

Lemma takeWhile_Forall {A} (p : A → bool) (l : list A) :
  Forall (λ x, p x = true) (takeWhile p l).
Proof.
  induction l as [|x r IH]; simpl; [constructor|].
  destruct (p x) eqn:Hx; by constructor.
Qed.

Lemma digitOrDot_facts (c : N) :
  isDigitOrDot c = true → isWhiteSpace c = false ∧ isPowerUnitChar c = false.
Proof.
  unfold isDigitOrDot. intros [H | H]%orb_true_iff.
  - by apply digit_facts in H as (? & ? & _).
  - apply N.eqb_eq in H as ->. by vm_compute.
Qed.

Lemma unit_char_facts (c : N) :
  isPowerUnitChar c = true → isWhiteSpace c = false ∧ isDigitOrDot c = false.
Proof. intros H. apply isPowerUnitChar_cases in H. check_each H. Qed.

(** A text the pattern of the validator accepts is made of digits and
    dots, then of characters of a unit. *)
Lemma powerPattern_shape (text : jsstring) :
  powerPattern text = true →
  ∃ body unit, text = body ++ unit
    ∧ Forall (λ c, isDigitOrDot c = true) body
    ∧ Forall (λ c, isPowerUnitChar c = true) unit.
Proof.
  unfold powerPattern. cbv zeta.
  pose proof (takeWhile_dropWhile isDigit text) as Htext.
  pose proof (takeWhile_Forall isDigit text) as Hd1.
  destruct (dropWhile isDigit text) as [|c r1] eqn:Er1; cbv beta iota.
  - intros _. exists (takeWhile isDigit text), [].
    split; [done|]. split; [|constructor].
    eapply Forall_impl; [exact Hd1|]. intros x Hx. unfold isDigitOrDot. by rewrite Hx.
  - set (r2 := if (c =? 46)%N then r1 else c :: r1).
    assert (∃ dot, c :: r1 = dot ++ r2 ∧ Forall (λ c, isDigitOrDot c = true) dot)
      as (dot & Hdot & Hdots).
    { subst r2. destruct (N.eqb_spec c 46) as [-> | _].
      - exists [46%N]. split; [done|]. by repeat constructor.
      - exists []. split; [done | constructor]. }
    pose proof (takeWhile_dropWhile isDigit r2) as Hr2.
    pose proof (takeWhile_Forall isDigit r2) as Hd2.
    intros H. exists (takeWhile isDigit text ++ dot ++ takeWhile isDigit r2),
                (dropWhile isDigit r2).
    split; [|split].
    + rewrite <- !app_assoc, Hr2, <- Hdot. done.
    + rewrite !Forall_app. split; [|split; [done|]];
        (eapply Forall_impl; [eassumption|]);
        intros x Hx; unfold isDigitOrDot; by rewrite Hx.
    + destruct (dropWhile isDigit r2) as [|k [|w [|? ?]]];
        [constructor | done | | done].
      apply orb_true_iff in H as [H | H].
      * apply andb_true_iff in H as [Hk Hw].
        apply orb_true_iff in Hk as [Hk | Hk]; apply N.eqb_eq in Hk as ->;
          apply orb_true_iff in Hw as [Hw | Hw]; apply N.eqb_eq in Hw as ->;
          by repeat constructor.
      * apply bool_decide_eq_true in H.
        replace (js "千瓦") with [21315%N; 29926%N] in H by (by vm_compute).
        injection H as -> ->. by repeat constructor.
Qed.

(** [parseFloat] gives its finite values in lowest terms. *)
Lemma parseFloat_reduced (s : jsstring) (q : Q) :
  parseFloat s = Finite q → Qred q = q.
Proof.
  unfold parseFloat. destruct (readSign (trimStart s)) as [neg s1].
  repeat case_match; try done; intros Hvalue;
    by apply numberValue_reduced in Hvalue.
Qed.

(** On a value of [parseFloat], [|| 0] and the test for NaN agree. *)
Lemma orZero_parseFloat (s : jsstring) :
  orZero (parseFloat s)
  = if isNaN (parseFloat s) then Finite 0 else parseFloat s.
Proof.
  destruct (parseFloat s) as [| | |q] eqn:E; cbn [orZero isNaN]; try done.
  destruct (Qeq_bool q 0) eqn:Hq; [|done].
  apply Qeq_bool_eq, Qred_complete in Hq.
  rewrite (parseFloat_reduced _ _ E) in Hq. by rewrite Hq.
Qed.

(** On a text the pattern of the validator accepts, the reading of the
    pages and the reading of the statistics are the same number. *)
Lemma componentPower_extractPowerValue (component : Component) :
  powerPattern (电机功率 component) = true →
  componentPower component = extractPowerValue (电机功率 component).
Proof.
  intros (body & unit & Htext & Hbody & Hunit)%powerPattern_shape.
  unfold componentPower, extractPowerValue, cleanPowerText, digitsAndDots.
  rewrite Htext, !filter_app_list.
  rewrite (filter_all _ body) by exact Hbody.
  rewrite (filter_none (λ c, isDigit c || (c =? 46)%N) unit)
    by (eapply Forall_impl; [exact Hunit | intros c Hc; by apply unit_char_facts]).
  rewrite (filter_all _ body)
    by (eapply Forall_impl; [exact Hbody | intros c Hc;
        apply digitOrDot_facts in Hc as [_ ->]; done]).
  rewrite (filter_none _ unit)
    by (eapply Forall_impl; [exact Hunit | intros c Hc; by rewrite Hc]).
  rewrite !app_nil_r.
  assert (Forall (λ c, isWhiteSpace c = false) body) as Hb
    by (eapply Forall_impl; [exact Hbody | intros c Hc; by apply digitOrDot_facts]).
  assert (Forall (λ c, isWhiteSpace c = false) unit) as Hu
    by (eapply Forall_impl; [exact Hunit | intros c Hc; by apply unit_char_facts]).
  rewrite (trim_no_space (body ++ unit)) by (by apply Forall_app).
  rewrite (trim_no_space body) by done.
  destruct body as [|c body']; [destruct unit as [|u unit']|].
  - by vm_compute.
  - cbn [app isEmpty orb]. by vm_compute.
  - cbn [app isEmpty orb]. apply orZero_parseFloat.
Qed.

Lemma power_sums_agree (components : list Component) (start : JSNumber) :
  Forall (λ component, powerPattern (电机功率 component) = true) components →
  fold_left (λ sum component, jsAdd sum (componentPower component))
    components start
  = fold_left (λ sum component,
                 jsAdd sum (extractPowerValue (电机功率 component)))
      components start.
Proof.
  intros Hall. revert start.
  induction Hall as [|c r Hc _ IH]; intros start; cbn [fold_left]; [done|].
  by rewrite (componentPower_extractPowerValue c Hc), IH.
Qed.

(** The total power a page shows for a device is the power total of the
    statistics of this device alone, when the power text of each of its
    components is one the validator accepts without a warning. *)
Theorem totalPower_agrees_with_statistics (device : Device) :
  Forall (λ component, powerPattern (电机功率 component) = true)
    (零部件列表 device) →
  totalPower device = 电机功率汇总 (generateStatistics [device]).
Proof.
  intros Hall. unfold totalPower, generateStatistics.
  cbn [电机功率汇总 fold_left]. by apply power_sums_agree.
Qed.

(** The device with one motor of 5KW: both readings give 5. *)
Lemma totalPower_agrees_with_statistics_example :
  Forall (λ component, powerPattern (电机功率 component) = true)
    (零部件列表 firstPowerDevice)
  ∧ totalPower firstPowerDevice = Finite 5
  ∧ 电机功率汇总 (generateStatistics [firstPowerDevice]) = Finite 5.
Proof.
  assert (Forall (λ component, powerPattern (电机功率 component) = true)
            (零部件列表 firstPowerDevice)) as Hall
    by (repeat constructor; by vm_compute).
  pose proof (totalPower_agrees_with_statistics firstPowerDevice Hall) as H.
  split; [done|]. split; [by vm_compute|]. rewrite <- H. by vm_compute.
Defined.

(** ** The power chart *)

Ltac order_Q :=
  unfold Qlt, Qle in *; cbn [Qnum Qden] in *; lia.

(** The range a component is counted in, as a number per range: one for
    its range, none when it has no power. *)
Lemma countPower_ranges (ranges : PowerRanges) (c : Component) :
  let bump (low high : JSNumber) := if powerBetween low high c then 1 else 0 in
  countPower ranges c
  = {| range_0_1KW := range_0_1KW ranges + bump (Finite 0) (Finite 1);
       range_1_5KW := range_1_5KW ranges + bump (Finite 1) (Finite 5);
       range_5_10KW := range_5_10KW ranges + bump (Finite 5) (Finite 10);
       range_10_20KW := range_10_20KW ranges + bump (Finite 10) (Finite 20);
       range_20KW以上 := range_20KW以上 ranges + bump (Finite 20) PosInfinity |}
  ∧ bump (Finite 0) (Finite 1) + bump (Finite 1) (Finite 5)
    + bump (Finite 5) (Finite 10) + bump (Finite 10) (Finite 20)
    + bump (Finite 20) PosInfinity
    = (if hasPower c then 1 else 0).
Proof.
  intros bump. subst bump. unfold countPower, powerBetween, hasPower. cbv zeta.
  pose proof (extractPowerValue_not_NaN (电机功率 c)) as Hnan.
  destruct ranges as [n0 n1 n2 n3 n4].
  cbn [range_0_1KW range_1_5KW range_5_10KW range_10_20KW range_20KW以上].
  destruct (extractPowerValue (电机功率 c)) as [| | |q]; [done| | |].
  - cbn. split; [f_equal; lia | done].
  - cbn. split; [f_equal; lia | done].
  - unfold jsGt, jsLe.
    destruct (Qlt_le_dec 0 q), (Qlt_le_dec 1 q), (Qlt_le_dec 5 q),
             (Qlt_le_dec 10 q), (Qlt_le_dec 20 q);
      cbn [andb]; first [ exfalso; order_Q | split; [f_equal; lia | done] ].
Qed.

Lemma countPower_fold (components : list Component) (ranges : PowerRanges) :
  let count (low high : JSNumber) :=
    length (List.filter (powerBetween low high) components) in
  fold_left countPower components ranges
  = {| range_0_1KW := range_0_1KW ranges + count (Finite 0) (Finite 1);
       range_1_5KW := range_1_5KW ranges + count (Finite 1) (Finite 5);
       range_5_10KW := range_5_10KW ranges + count (Finite 5) (Finite 10);
       range_10_20KW := range_10_20KW ranges + count (Finite 10) (Finite 20);
       range_20KW以上 := range_20KW以上 ranges + count (Finite 20) PosInfinity |}.
Proof.
  cbv zeta. revert ranges.
  induction components as [|c r IH]; intros ranges; cbn [fold_left List.filter].
  - destruct ranges. cbn. f_equal; lia.
  - rewrite IH. destruct (countPower_ranges ranges c) as [-> _].
    cbn [range_0_1KW range_1_5KW range_5_10KW range_10_20KW range_20KW以上].
    f_equal; match goal with |- context [powerBetween ?l ?h c] =>
                 destruct (powerBetween l h c) end; cbn [length]; lia.
Qed.

Lemma hasPower_count (components : list Component) :
  length (List.filter (powerBetween (Finite 0) (Finite 1)) components)
  + length (List.filter (powerBetween (Finite 1) (Finite 5)) components)
  + length (List.filter (powerBetween (Finite 5) (Finite 10)) components)
  + length (List.filter (powerBetween (Finite 10) (Finite 20)) components)
  + length (List.filter (powerBetween (Finite 20) PosInfinity) components)
  = length (List.filter hasPower components).
Proof.
  induction components as [|c r IH]; [done|]. cbn [List.filter].
  destruct (countPower_ranges
              {| range_0_1KW := 0; range_1_5KW := 0; range_5_10KW := 0;
                 range_10_20KW := 0; range_20KW以上 := 0 |} c) as [_ H].
  cbv zeta in H.
  destruct (powerBetween (Finite 0) (Finite 1) c),
           (powerBetween (Finite 1) (Finite 5) c),
           (powerBetween (Finite 5) (Finite 10) c),
           (powerBetween (Finite 10) (Finite 20) c),
           (powerBetween (Finite 20) PosInfinity c),
           (hasPower c); cbn [length] in *; lia.
Qed.

(** The last loop keeps the entries with a positive count, each with the
    colour of its range. *)
Lemma keepRange_fold (ranges : PowerRanges) :
  let kept :=
    List.filter (λ '(_, count, _), 0 <? count)
      [ (js "0-1KW", range_0_1KW ranges, js "#ef4444");
        (js "1-5KW", range_1_5KW ranges, js "#f97316");
        (js "5-10KW", range_5_10KW ranges, js "#eab308");
        (js "10-20KW", range_10_20KW ranges, js "#22c55e");
        (js "20KW以上", range_20KW以上 ranges, js "#3b82f6") ] in
  fold_left keepRange
    (zip (seq 0 (length (powerRangeEntries ranges))) (powerRangeEntries ranges))
    ([], [], [])
  = (map (λ '(label, _, _), label) kept, map (λ '(_, count, _), count) kept,
     map (λ '(_, _, color), color) kept).
Proof.
  destruct ranges as [[|n0] [|n1] [|n2] [|n3] [|n4]]; by vm_compute.
Qed.

Lemma sum_positive_counts (l : list (jsstring * nat * jsstring)) :
  sum_list (map (λ '(_, count, _), count)
              (List.filter (λ '(_, count, _), 0 <? count) l))
  = sum_list (map (λ '(_, count, _), count) l).
Proof.
  induction l as [|[[? n] ?] r IH]; [done|]. cbn [List.filter map].
  destruct (Nat.ltb_spec 0 n); simpl; lia.
Qed.

(** The power chart has one slice for each range that some component lies
    in, in the order of the ranges 0-1, 1-5, 5-10, 10-20 and above 20, with
    the label and the colour of the range and the number of the components
    whose power is above the lower and not above the upper bound.  The
    slices add up to the number of the components with a positive power. *)
Theorem generatePowerChartData_slices (devs : list Device) :
  generatePowerChartData devs
  = {| Chart.labels := map (λ '(label, _, _), label) (powerSlices devs);
       Chart.datasets :=
         [ {| Chart.label := js "零部件数量";
              Chart.data := map (λ '(_, count, _), count) (powerSlices devs);
              Chart.backgroundColor :=
                map (λ '(_, _, color), color) (powerSlices devs);
              Chart.borderColor := js "#ffffff";
              Chart.borderWidth := 2 |} ] |}
  ∧ sum_list (map (λ '(_, count, _), count) (powerSlices devs))
    = length (List.filter hasPower (allComponents devs)).
Proof.
  split.
  - unfold generatePowerChartData. cbv zeta.
    rewrite fold_left_nested. fold (allComponents devs).
    rewrite countPower_fold. rewrite keepRange_fold. cbv zeta.
    cbn [range_0_1KW range_1_5KW range_5_10KW range_10_20KW range_20KW以上
         Nat.add].
    reflexivity.
  - rewrite <- hasPower_count. unfold powerSlices.
    rewrite sum_positive_counts. unfold powerRangeBounds. simpl. lia.
Qed.

(** ** Rows the reconstruction passes over *)

Lemma validRows_app (rows rows' : list RawCSVRow) :
  validRows (rows ++ rows') = validRows rows ++ validRows rows'.
Proof. apply filter_app_list. Qed.

Lemma processRows_dropped (rows : list RawCSVRow) (st : ParseState) :
  Forall (λ row, nonBlank (row !! col_设备编号) = false) rows →
  currentDevice st = None →
  fold_left processRow rows st = st.
Proof.
  intros Hrows Hcur. induction Hrows as [|row r Hrow _ IH]; [done|].
  cbn [fold_left]. by rewrite processRow_dropped.
Qed.

(** What the reconstruction passes over: the rows in front of the first
    row with a device code are lost with their components, and the
    numbering does not count them; a row without content and a row that
    repeats the header, wherever it stands, changes nothing. *)
Theorem processInheritance_skipped_rows (before after : list RawCSVRow) :
  (Forall (λ row, nonBlank (row !! col_设备编号) = false) before →
   processInheritance (before ++ after) = processInheritance after)
  ∧ (∀ row, hasContent row = false ∨ isHeaderRow row = true →
       processInheritance (before ++ row :: after)
       = processInheritance (before ++ after)).
Proof.
  unfold processInheritance. split.
  - intros Hbefore. rewrite validRows_app, fold_left_app.
    rewrite (processRows_dropped (validRows before)); [done | | done].
    apply Forall_forall. intros row Hrow.
    apply list_elem_of_In, filter_In in Hrow as [Hrow _].
    rewrite Forall_forall in Hbefore. by apply Hbefore, list_elem_of_In.
  - intros row Hrow. rewrite !validRows_app. do 2 f_equal.
    unfold validRows. cbn [List.filter].
    destruct Hrow as [-> | ->]; [done | by rewrite andb_false_r].
Qed.

(** ** Uploads without a warning about a power text *)

Lemma powerWarnings_head (rows : list RawCSVRow) (i : N) :
  Forall (λ w, head w = Some 31532%N) (powerWarnings i rows).
Proof.
  revert i. induction rows as [|row r IH]; intros i; cbn [powerWarnings];
    [constructor|].
  apply Forall_app. split; [|apply IH].
  destruct (nonBlank (row !! col_电机功率)); [|constructor].
  destruct (powerPattern _); [constructor|].
  repeat constructor.
Qed.

Lemma powerWarnings_nil (rows : list RawCSVRow) (i : N) :
  powerWarnings i rows = [] →
  Forall (λ row, powerPattern (trimOrEmpty (row !! col_电机功率)) = true) rows.
Proof.
  revert i. induction rows as [|row r IH]; intros i; cbn [powerWarnings];
    [constructor|].
  intros [Hrow Hr]%app_eq_nil. constructor; [|by eapply IH].
  unfold nonBlank, trimOrEmpty in *.
  destruct (row !! col_电机功率) as [s|]; [|by vm_compute].
  cbn [default] in Hrow. unfold Datatypes.id in Hrow.
  destruct (isEmpty (trim s)) eqn:Et; [by vm_compute|].
  destruct (isEmpty s) eqn:Es.
  { apply isEmpty_true in Es as ->. by vm_compute in Et. }
  cbn [negb andb] in Hrow. by destruct (powerPattern (trim s)).
Qed.

(** The components of the devices come from the rows. *)
Lemma processRows_components (P : Component → Prop)
    (rows : list RawCSVRow) (st : ParseState) :
  Forall (λ row, ∀ k, Forall P (rowComponents k row)) rows →
  allComponentsHave P (flush st) →
  allComponentsHave P (flush (fold_left processRow rows st)).
Proof.
  unfold allComponentsHave. intros Hrows. revert st.
  induction Hrows as [|row r Hrow _ IH]; intros st Hst; [done|].
  cbn [fold_left]. apply IH.
  destruct (nonBlank (row !! col_设备编号)) eqn:Eo.
  - rewrite processRow_opens by done. unfold flush at 1.
    cbn [currentDevice devices]. apply Forall_app. split; [done|].
    repeat constructor. cbn [rowDevice 零部件列表]. apply Hrow.
  - destruct (currentDevice st) as [d|] eqn:Ecur.
    + rewrite (processRow_continues st row d) by done. unfold flush at 1.
      cbn [currentDevice devices]. unfold flush in Hst. rewrite Ecur in Hst.
      apply Forall_app in Hst as [Hds Hd]. apply Forall_app. split; [done|].
      repeat constructor. cbn [withMoreComponents 零部件列表].
      apply Forall_app. split; [by apply Forall_inv in Hd | apply Hrow].
    + by rewrite processRow_dropped.
Qed.

(** When the validator has no warning about a power text, the components of
    the reconstruction carry power texts that match its pattern, and for
    each device the total of the pages is the total of the statistics of
    this device alone. *)
Theorem upload_without_power_warning (rows : list RawCSVRow) :
  Forall (λ w, w = noComponentsWarning) (warnings (validateData rows)) →
  allComponentsHave (λ c, powerPattern (电机功率 c) = true)
    (processInheritance rows)
  ∧ Forall (λ d, totalPower d = 电机功率汇总 (generateStatistics [d]))
      (processInheritance rows).
Proof.
  intros Hw.
  assert (powerWarnings 0 rows = []) as Hnone.
  { destruct rows as [|firstRow rest]; [done|].
    unfold validateData in Hw.
    destruct (fold_left countRow (firstRow :: rest) (0, 0)) as [dc cc].
    cbn [warnings] in Hw. apply Forall_app in Hw as [_ Hw].
    pose proof (powerWarnings_head (firstRow :: rest) 0) as Hhead.
    destruct (powerWarnings 0 (firstRow :: rest)) as [|w ws]; [done|].
    apply Forall_inv in Hw. apply Forall_inv in Hhead. subst w.
    by vm_compute in Hhead. }
  assert (allComponentsHave (λ c, powerPattern (电机功率 c) = true)
            (processInheritance rows)) as Hall.
  { unfold processInheritance. apply processRows_components; [|constructor].
    apply powerWarnings_nil in Hnone.
    apply Forall_forall. intros row Hrow k.
    apply list_elem_of_In, filter_In in Hrow as [Hrow _].
    rewrite Forall_forall in Hnone. apply list_elem_of_In, Hnone in Hrow.
    unfold rowComponents. destruct (nonBlank (row !! col_零部件名称));
      by repeat constructor. }
  split; [done|].
  eapply Forall_impl; [exact Hall|]. intros d Hd.
  unfold totalPower, generateStatistics. cbn [电机功率汇总 fold_left].
  by apply power_sums_agree.
Qed.

(** The rows of the power scenario raise no warning; the totals of their
    two devices are 5 and 2. *)
Lemma upload_without_power_warning_example :
  Forall (λ w, w = noComponentsWarning) (warnings (validateData powerRows))
  ∧ map totalPower (processInheritance powerRows) = [Finite 5; Finite 2]
  ∧ Forall (λ d, totalPower d = 电机功率汇总 (generateStatistics [d]))
      (processInheritance powerRows).
Proof.
  assert (Forall (λ w, w = noComponentsWarning)
            (warnings (validateData powerRows))) as Hw
    by (vm_compute; constructor).
  destruct (upload_without_power_warning powerRows Hw) as [_ H].
  split; [done|]. split; [by vm_compute | exact H].
Defined.
